(** * Swarm simulator: robot plugin and communication model

    A shallow embedding of the message router of [RobotPlugin.cc]
    ([SendTo], [OnMsgReceived], [OnNeighborsReceived], [UpdateBattery]) and
    of the link model declared in [CommsModel.hh].

    Conventions.
    - A C++ [double] is modelled by an exact rational ([Q]); the properties
      below are order properties (thresholds, clamping) and are stated up to
      that idealisation.
    - [std::string] is [string]; [size()] is [String.length].
    - [std::map<std::string, T>] is [gmap string T].
    - [gzerr << ...] appends one line to a log, modelled as [list string]. *)

From Stdlib Require Import QArith Qminmax Qabs Lqa.
From stdpp Require Import gmap strings list pretty.

Local Open Scope string_scope.

(** ** Helpers on rationals *)

Definition Qltb (x y : Q) : bool := negb (Qle_bool y x).

(** [std::min(a, b)] is [(b < a) ? b : a]; [std::max(a, b)] is
    [(a < b) ? b : a]. *)
Definition std_min (a b : Q) : Q := if Qltb b a then b else a.
Definition std_max (a b : Q) : Q := if Qltb a b then b else a.

(** ** The robot plugin (src/RobotPlugin.cc) *)

Module RobotPlugin.

(** [msgs::Datagram]: the fields the plugin reads and writes. *)
Record Datagram := {
  src_address : string;
  dst_address : string;
  dst_port : N;
  data : string;
  recipients : list string;
}.

(** What a run of a handler leaves behind: log lines written with [gzerr]
    and invocations of user callbacks. *)
Inductive Event (Callback : Type) :=
| GzErr (line : string)
| UserCallback (cb : Callback) (src dst : string) (port : N) (payload : string).
Arguments GzErr {Callback} line.
Arguments UserCallback {Callback} cb src dst port payload.

Section Plugin.

(** The type of bound callbacks ([std::function] objects). *)
Context {Callback : Type}.

(** The transport node ([this->node]): publishing a datagram on a topic
    either fails or succeeds and moves the transport to a new state. *)
Context {Transport : Type}.
Variable Publish : string → Datagram → Transport → bool * Transport.

(** [kMtu], the maximum transmission unit, a constant of the class
    declared in RobotPlugin.hh. *)
Variable kMtu : N.

Record State := {
  address : string;
  modelName : string;
  callbacks : gmap string Callback;
  neighbors : list string;
  neighborProbabilities : gmap string Q;
  startCapacity : Q;
  capacity : Q;
  consumption : Q;
  consumptionFactor : Q;
  booRechargeDistance : Q;
}.

Definition Host (r : State) : string := address r.

Definition kBrokerIncomingTopic : string := "/swarm/broker/incoming".

(** *** SendTo *)

Definition payloadTooLargeLine (r : State) (size : N) : string :=
  "[" +:+ Host r +:+ "] RobotPlugin::SendTo() error: Payload " +:+
  "size (" +:+ pretty size +:+ ") is greater than the maximum " +:+
  "allowed (" +:+ pretty kMtu +:+ ")".

Definition publishFailureLine (r : State) : string :=
  "[" +:+ Host r +:+ "] RobotPlugin::SendTo(): Error " +:+
  "trying to publish on topic [" +:+ kBrokerIncomingTopic +:+ "]".

(** The datagram built by [SendTo]; the recipients are left empty, the
    broker fills them in. *)
Definition outgoing (r : State) (_data _dstAddress : string) (_port : N)
  : Datagram :=
  {| src_address := Host r; dst_address := _dstAddress; dst_port := _port;
     data := _data; recipients := [] |}.

(** [_data.size()]. *)
Definition payloadSize (_data : string) : N := N.of_nat (String.length _data).

(** Returns the boolean result, the transport after the call and the log
    lines written. *)
Definition SendTo (r : State) (t : Transport)
    (_data _dstAddress : string) (_port : N)
  : bool * Transport * list string :=
  let size := payloadSize _data in
  if (kMtu <? size)%N then
    (false, t, [payloadTooLargeLine r size])
  else
    let msg := outgoing r _data _dstAddress _port in
    let '(ok, t') := Publish kBrokerIncomingTopic msg t in
    if negb ok then (false, t', [publishFailureLine r])
    else (true, t', []).

(** *** OnMsgReceived *)

Definition topicOf (_msg : Datagram) : string :=
  "/swarm/" +:+ dst_address _msg +:+ "/" +:+ pretty (dst_port _msg).

Definition notFoundLine (r : State) (topic : string) : string :=
  "[" +:+ Host r +:+ "] RobotPlugin::OnMsgReceived(): " +:+
  "Address [" +:+ topic +:+ "] not found".

(** The loop over [_msg.recipients()], leaving at the first match. *)
Fixpoint visibleIn (host : string) (rs : list string) : bool :=
  match rs with
  | [] => false
  | x :: rs' => if String.eqb x host then true else visibleIn host rs'
  end.

Definition OnMsgReceived (r : State) (_msg : Datagram) : list (Event Callback) :=
  let topic := topicOf _msg in
  match callbacks r !! topic with
  | None => [GzErr (notFoundLine r topic)]
  | Some userCallback =>
      if visibleIn (Host r) (recipients _msg) then
        [UserCallback userCallback (src_address _msg) (dst_address _msg)
           (dst_port _msg) (data _msg)]
      else []
  end.

(** *** OnNeighborsReceived *)

(** The loop over [_msg.neighbors()], with [push_back] on the cache. *)
Fixpoint pushNeighbors (host : string) (msg acc : list string) : list string :=
  match msg with
  | [] => acc
  | x :: msg' =>
      pushNeighbors host msg' (if String.eqb x host then acc else (acc ++ [x])%list)
  end.

(** [_msg] is the [neighbors] field of the [msgs::Neighbor_V] received. *)
Definition OnNeighborsReceived (r : State) (_msg : list string) : State :=
  {| address := address r; modelName := modelName r;
     callbacks := callbacks r;
     neighbors := pushNeighbors (Host r) _msg [];
     neighborProbabilities := ∅;
     startCapacity := startCapacity r; capacity := capacity r;
     consumption := consumption r;
     consumptionFactor := consumptionFactor r;
     booRechargeDistance := booRechargeDistance r |}.

(** *** UpdateBattery *)

(** What [UpdateBattery] reads from the simulator: the distance to the
    base of operations when [this->boo] is set, whether the noise-free
    linear and angular velocities compare equal to [Vector3d::Zero], and
    the physics engine's maximum step size. *)
Record Surroundings := {
  booDistance : option Q;
  linearIsZero : bool;
  angularIsZero : bool;
  maxStepSize : Q;
}.

(** The largest finite [double]. *)
Definition IGN_DBL_MAX : Q := inject_Z (2 ^ 1024 - 2 ^ 971).

Definition distToBOO (e : Surroundings) : Q :=
  match booDistance e with
  | Some d => d
  | None => IGN_DBL_MAX
  end.

Definition recharging (r : State) (e : Surroundings) : bool :=
  Qltb (distToBOO e) (booRechargeDistance r)
  && linearIsZero e && angularIsZero e.

Definition setNeighbors (r : State) (ns : list string) : State :=
  {| address := address r; modelName := modelName r;
     callbacks := callbacks r; neighbors := ns;
     neighborProbabilities := neighborProbabilities r;
     startCapacity := startCapacity r; capacity := capacity r;
     consumption := consumption r;
     consumptionFactor := consumptionFactor r;
     booRechargeDistance := booRechargeDistance r |}.

Definition setCapacity (r : State) (c : Q) : State :=
  {| address := address r; modelName := modelName r;
     callbacks := callbacks r; neighbors := neighbors r;
     neighborProbabilities := neighborProbabilities r;
     startCapacity := startCapacity r; capacity := c;
     consumption := consumption r;
     consumptionFactor := consumptionFactor r;
     booRechargeDistance := booRechargeDistance r |}.

Definition UpdateBattery (r : State) (e : Surroundings) : State :=
  if String.eqb (modelName r) "boo" then r
  else if recharging r e then
    let mAhRecharged :=
      (consumption r * (consumptionFactor r * 4) * (maxStepSize e / 3600))%Q in
    setCapacity r (std_min (capacity r + mAhRecharged)%Q (startCapacity r))
  else
    let mAhConsumed :=
      (consumption r * consumptionFactor r * (maxStepSize e / 3600))%Q in
    setCapacity r (std_max 0 (capacity r - mAhConsumed)%Q).

End Plugin.

Arguments State Callback : clear implicits.

End RobotPlugin.

(** ** The communication model (include/swarm/CommsModel.hh)

    The header declares the configuration fields with their defaults, the
    engine's state ([swarm], [lastUpdateTime], [visibility]) and the
    operations [Update], [UpdateOutages], [UpdateVisibility] and
    [UpdateNeighbors]. Their bodies live in CommsModel.cc, and are modelled
    here from the specification (sections 3 and 4.1 to 4.5). *)

Module CommsModel.

(** The configuration fields of the class. *)
Record Config := {
  neighborDistanceMin : Q;
  neighborDistanceMax : Q;
  neighborDistancePenaltyTree : Q;
  commsDistanceMin : Q;
  commsDistanceMax : Q;
  commsDistancePenaltyTree : Q;
  commsDropProbabilityMin : Q;
  commsDropProbabilityMax : Q;
  commsOutageProbability : Q;
  commsOutageDurationMin : Q;
  commsOutageDurationMax : Q;
}.

(** The default member initialisers of the header. *)
Definition defaults : Config :=
  {| neighborDistanceMin := -1; neighborDistanceMax := -1;
     neighborDistancePenaltyTree := 0;
     commsDistanceMin := -1; commsDistanceMax := -1;
     commsDistancePenaltyTree := 0;
     commsDropProbabilityMin := 0; commsDropProbabilityMax := 0;
     commsOutageProbability := 0;
     commsOutageDurationMin := -1; commsOutageDurationMax := -1 |}.

(** Modelled from the spec: the 3D point the world state provider
    gives for a node (the poses of the header's [LineOfSight]). *)
Record Position := { px : Q; py : Q; pz : Q }.

(** *** Distance and penalty scoring (specification, section 4.2) *)

(** Modelled from the spec: a distance that may be infinite, as the
    effective distance of section 4.2 is. *)
Inductive Distance :=
| Finite (d : Q)
| Infinite.

(** Modelled from the spec: one distance policy, the neighbor one or
    the comms one, made of the three fields of the header that bear its
    name. *)
Record Policy := {
  distanceMin : Q;
  distanceMax : Q;
  penaltyTree : Q;
}.

(** Modelled from the spec: the neighbor policy reads the
    [neighborDistance...] fields. *)
Definition neighborPolicy (c : Config) : Policy :=
  {| distanceMin := neighborDistanceMin c;
     distanceMax := neighborDistanceMax c;
     penaltyTree := neighborDistancePenaltyTree c |}.

(** Modelled from the spec: the comms policy reads the
    [commsDistance...] fields. *)
Definition commsPolicy (c : Config) : Policy :=
  {| distanceMin := commsDistanceMin c;
     distanceMax := commsDistanceMax c;
     penaltyTree := commsDistancePenaltyTree c |}.

(** Modelled from the spec: the body of the scoring code in CommsModel.cc
    is missing. The value stored in [visibility] for a pair: the empty
    sequence, or the single empty string of the legacy encoding, stands
    for a clear line of sight; otherwise it holds the names of the first
    and last obstacle. *)
Definition lineOfSight (obstacles : list string) : bool :=
  match obstacles with
  | [] => true
  | [name] => String.eqb name ""
  | _ => false
  end.

(** Modelled from the spec: the body of the scoring code in CommsModel.cc
    is missing. The penalty added to the raw distance: 0 if clear, else
    infinite if [penaltyTree < 0], else [penaltyTree]. *)
Definition obstructionPenalty (p : Policy) (clear : bool) : Distance :=
  if clear then Finite 0
  else if Qltb (penaltyTree p) 0 then Infinite
  else Finite (penaltyTree p).

(** Modelled from the spec: the sum of a raw distance and a penalty that
    may be infinite. *)
Definition dplus (d : Q) (x : Distance) : Distance :=
  match x with
  | Finite a => Finite (d + a)
  | Infinite => Infinite
  end.

(** Modelled from the spec: the body of the scoring code in CommsModel.cc
    is missing. [effectiveDistance = euclideanDistance + penalty]. *)
Definition effectiveDistance (p : Policy) (dist : Q) (clear : bool) : Distance :=
  dplus dist (obstructionPenalty p clear).

(** Modelled from the spec: [min <= effectiveDistance], a negative
    [min] imposing nothing. *)
Definition aboveMin (lo : Q) (e : Distance) : bool :=
  Qltb lo 0 ||
  match e with
  | Finite x => Qle_bool lo x
  | Infinite => true
  end.

(** Modelled from the spec: [effectiveDistance <= max], a negative
    [max] putting no limit on the distance. An infinite effective
    distance is within no maximum, not even the absent one: a negative
    penalty means that one obstruction fully blocks the relation
    (section 3). *)
Definition belowMax (hi : Q) (e : Distance) : bool :=
  match e with
  | Finite x => Qltb hi 0 || Qle_bool x hi
  | Infinite => false
  end.

(** Modelled from the spec: the body of the scoring code in CommsModel.cc
    is missing. A pair satisfies a policy when
    [min <= effectiveDistance <= max], a negative bound meaning no
    constraint on that side; an infinite effective distance satisfies
    none. *)
Definition satisfies (p : Policy) (dist : Q) (clear : bool) : bool :=
  let e := effectiveDistance p dist clear in
  aboveMin (distanceMin p) e && belowMax (distanceMax p) e.

(** Modelled from the spec: the body of the scoring code in CommsModel.cc
    is missing. Neighbor eligibility is the neighbor policy; comms
    eligibility is the comms policy and, in addition, neighbor
    eligibility. *)
Definition neighborEligible (c : Config) (dist : Q) (clear : bool) : bool :=
  satisfies (neighborPolicy c) dist clear.

(** Modelled from the spec: comms eligibility, which requires neighbor
    eligibility. *)
Definition commsEligible (c : Config) (dist : Q) (clear : bool) : bool :=
  neighborEligible c dist clear && satisfies (commsPolicy c) dist clear.

(** *** Outage state (specification, sections 3 and 4.3) *)

(** Modelled from the spec: what the roster holds for a node, its outage
    state and its neighbor set (the member type is declared in
    SwarmTypes.hh). *)
Record Node := {
  inOutage : bool;
  outageEndTime : option Q;
  neighbors : gset string;
}.

(** Modelled from the spec: the replacement of a node's neighbor set. *)
Definition setNeighbors (n : Node) (ns : gset string) : Node :=
  {| inOutage := inOutage n; outageEndTime := outageEndTime n;
     neighbors := ns |}.

(** Modelled from the spec: the samples the seedable random source
    yields during one tick: for each address, a sample in [0, 1]
    deciding the entry into an outage and a sample in [0, 1] placing the
    duration between its bounds. *)
Record OutageDraws := {
  enterSample : string → Q;
  durationSample : string → Q;
}.

(** Modelled from the spec: the point of [lo, hi] a sample [u] of
    [0, 1] stands for in a uniform draw. *)
Definition uniform (lo hi u : Q) : Q := (lo + u * (hi - lo))%Q.

(** Modelled from the spec: the body of [UpdateOutages] in CommsModel.cc
    is missing. The end of an outage that starts at [now]: the duration
    is drawn between [commsOutageDurationMin] and
    [commsOutageDurationMax]; a negative bound means no limit, and the
    outage then has no end time. *)
Definition drawOutageEnd (c : Config) (now u : Q) : option Q :=
  if Qltb (commsOutageDurationMin c) 0 || Qltb (commsOutageDurationMax c) 0
  then None
  else Some (now + uniform (commsOutageDurationMin c)
                           (commsOutageDurationMax c) u)%Q.

(** Modelled from the spec: the body of [UpdateOutages] in CommsModel.cc
    is missing. One evaluation of a node's state machine: [Outage] goes
    back to [Active] when [now >= outageEndTime]; [Active] enters
    [Outage] when the sample falls under [commsOutageProbability] scaled
    by the tick duration. *)
Definition outageStep (c : Config) (now dt uEnter uDuration : Q) (n : Node)
  : Node :=
  if inOutage n then
    match outageEndTime n with
    | Some t =>
        if Qle_bool t now then
          {| inOutage := false; outageEndTime := outageEndTime n;
             neighbors := neighbors n |}
        else n
    | None => n
    end
  else if Qltb uEnter (commsOutageProbability c * dt)%Q then
    {| inOutage := true; outageEndTime := drawOutageEnd c now uDuration;
       neighbors := neighbors n |}
  else n.

(** Modelled from the spec: the invariant of the outage state (section
    3). A node in an outage has an end time, and that time is later than
    the last update. *)
Definition nodeInvariant (last : Q) (n : Node) : Prop :=
  inOutage n = true → ∃ t, outageEndTime n = Some t ∧ (last < t)%Q.

(** *** The engine *)

(** Modelled from the spec: the world state provider, with the
    simulation clock, every node's position and the occlusion query
    between two points, which answers with the value stored in
    [visibility]. *)
Record World := {
  simTime : Q;
  position : string → Position;
  occlusion : Position → Position → list string;
}.

(** The state of the class, as the header declares it: the roster, here
    with each member's outage state and neighbor set, the time of the
    last update and the visibility cache, keyed by a pair of addresses. *)
Record Engine := {
  swarm : gmap string Node;
  lastUpdateTime : Q;
  visibility : gmap (string * string) (list string);
}.

(** Modelled from the spec: the invariant of section 3 for every node
    of the roster, the last update being [lastUpdateTime]. *)
Definition outageInvariant (m : Engine) : Prop :=
  ∀ a n, swarm m !! a = Some n → nodeInvariant (lastUpdateTime m) n.

(** Modelled from the spec: the key of an unordered pair of addresses,
    in lexicographic order. *)
Definition pairKey (a b : string) : string * string :=
  if String.leb a b then (a, b) else (b, a).

(** Modelled from the spec: a node of the roster that is not in an
    outage. *)
Definition isActive (s : gmap string Node) (a : string) : bool :=
  match s !! a with
  | Some n => negb (inOutage n)
  | None => false
  end.

(** Modelled from the spec: the addresses of the nodes that are not in
    an outage. *)
Definition activeNodes (s : gmap string Node) : list string :=
  filter (λ a, isActive s a) (elements (dom s)).

(** Modelled from the spec: every unordered pair of a list of
    addresses, once. *)
Fixpoint unorderedPairs (l : list string) : list (string * string) :=
  match l with
  | [] => []
  | a :: l' => ((λ b, pairKey a b) <$> l') ++ unorderedPairs l'
  end.

Section Model.

(** [ignition::math::Vector3d::Distance], the Euclidean distance. *)
Variable euclideanDistance : Position → Position → Q.

(** The reserved addresses, constants of the plugin class, and the
    membership of a node in a multicast group. *)
Variable kBroadcast : string.
Variable isMulticast : string → bool.
Variable inGroup : string → string → bool.

Variable config : Config.

(** Modelled from the spec: the body of [UpdateOutages] in CommsModel.cc
    is missing. Every node's state machine is evaluated once. *)
Definition UpdateOutages (w : World) (draws : OutageDraws) (m : Engine)
  : Engine :=
  let dt := (simTime w - lastUpdateTime m)%Q in
  {| swarm := map_imap (λ a n,
       Some (outageStep config (simTime w) dt
               (enterSample draws a) (durationSample draws a) n)) (swarm m);
     lastUpdateTime := simTime w;
     visibility := visibility m |}.

(** Modelled from the spec: the body of [UpdateVisibility] in
    CommsModel.cc is missing. One occlusion query for every pair of the
    list, stored under the pair, starting from an empty cache. *)
Definition queryAll (w : World) (pairs : list (string * string))
  : gmap (string * string) (list string) :=
  foldr (λ k vis,
           <[k := occlusion w (position w k.1) (position w k.2)]> vis)
        ∅ pairs.

(** Modelled from the spec: the body of [UpdateVisibility] in
    CommsModel.cc is missing. The cache is rebuilt from the pairs of
    active nodes. *)
Definition UpdateVisibility (w : World) (m : Engine) : Engine :=
  {| swarm := swarm m;
     lastUpdateTime := lastUpdateTime m;
     visibility := queryAll w (unorderedPairs (activeNodes (swarm m))) |}.

(** Modelled from the spec: the Euclidean distance between two nodes. *)
Definition pairDistance (w : World) (a b : string) : Q :=
  euclideanDistance (position w a) (position w b).

(** Modelled from the spec: the body of [UpdateNeighborList] in
    CommsModel.cc is missing. Two nodes are neighbors when their cached
    visibility and their distance satisfy the neighbor policy. *)
Definition isNeighbor (w : World)
    (vis : gmap (string * string) (list string)) (a b : string) : bool :=
  match vis !! pairKey a b with
  | Some obstacles =>
      neighborEligible config (pairDistance w a b) (lineOfSight obstacles)
  | None => false
  end.

(** Modelled from the spec: the body of [UpdateNeighborList] in
    CommsModel.cc is missing. The neighbor set of a node: empty in an
    outage, else the other nodes that are not in an outage and satisfy
    the neighbor policy with it. *)
Definition UpdateNeighborList (w : World) (m : Engine) (a : string)
    (n : Node) : gset string :=
  if inOutage n then ∅
  else list_to_set
         (filter (λ b, negb (String.eqb a b) && isNeighbor w (visibility m) a b)
                 (activeNodes (swarm m))).

(** Modelled from the spec: the body of [UpdateNeighbors] in
    CommsModel.cc is missing. Every node's neighbor set is replaced. *)
Definition UpdateNeighbors (w : World) (m : Engine) : Engine :=
  {| swarm := map_imap
       (λ a n, Some (setNeighbors n (UpdateNeighborList w m a n))) (swarm m);
     lastUpdateTime := lastUpdateTime m;
     visibility := visibility m |}.

(** Modelled from the spec: the link model of section 4.4, steps 2 to 4:
    visibility, then the neighbor sets. *)
Definition Recompute (w : World) (m : Engine) : Engine :=
  UpdateNeighbors w (UpdateVisibility w m).

(** Modelled from the spec: the body of [Update] in CommsModel.cc is
    missing. One tick: outages, visibility, neighbors. *)
Definition Update (w : World) (draws : OutageDraws) (m : Engine) : Engine :=
  Recompute w (UpdateOutages w draws m).

(** Modelled from the spec: the engine runs [Update] once per tick;
    each tick brings its world state and its samples. *)
Fixpoint run (ticks : list (World * OutageDraws)) (m : Engine) : Engine :=
  match ticks with
  | [] => m
  | tick :: ticks' => run ticks' (Update tick.1 tick.2 m)
  end.

(** *** The send path (specification, section 4.5) *)

(** Modelled from the spec: the samples of one send: for each candidate
    recipient, the sample placing the drop probability between its
    bounds and the sample compared with it. *)
Record DropDraws := {
  probabilitySample : string → Q;
  dropSample : string → Q;
}.

(** Modelled from the spec: the drop draw of one candidate discards the
    message. *)
Definition dropped (d : DropDraws) (b : string) : bool :=
  Qltb (dropSample d b)
       (uniform (commsDropProbabilityMin config)
                (commsDropProbabilityMax config) (probabilitySample d b)).

(** Modelled from the spec: the pair satisfies the comms policy, on the
    cached visibility. *)
Definition commsOK (w : World) (m : Engine) (a b : string) : bool :=
  match visibility m !! pairKey a b with
  | Some obstacles =>
      commsEligible config (pairDistance w a b) (lineOfSight obstacles)
  | None => false
  end.

(** Modelled from the spec: the broker's recipient computation is
    missing. A candidate receives a message when sender and candidate
    are in each other's neighbor set, satisfy the comms policy, and the
    drop draw does not discard the message. *)
Definition canReach (w : World) (m : Engine) (d : DropDraws) (a b : string)
  : bool :=
  match swarm m !! a, swarm m !! b with
  | Some na, Some nb =>
      bool_decide (b ∈ neighbors na) && bool_decide (a ∈ neighbors nb)
      && commsOK w m a b && negb (dropped d b)
  | _, _ => false
  end.

(** Modelled from the spec: the broker's recipient computation is
    missing. Unicast: the destination alone; broadcast: every other
    node; multicast: every other node of the group. *)
Definition ComputeRecipients (w : World) (m : Engine) (d : DropDraws)
    (src dst : string) : list string :=
  if String.eqb dst kBroadcast then
    filter (λ b, negb (String.eqb src b) && canReach w m d src b)
           (elements (dom (swarm m)))
  else if isMulticast dst then
    filter (λ b, negb (String.eqb src b) && inGroup dst b
                 && canReach w m d src b)
           (elements (dom (swarm m)))
  else if canReach w m d src dst then [dst] else [].

End Model.

End CommsModel.

(** ** Concrete runs *)

Module Examples.
Import RobotPlugin CommsModel.

(** A robot bound on its own address and port 4100, with a full battery
    of capacity 1. *)
Definition robot1 : State nat :=
  {| address := "192.168.2.1"; modelName := "robot1";
     callbacks := {[ "/swarm/192.168.2.1/4100" := 7%nat ]};
     RobotPlugin.neighbors := ["192.168.2.2"]; neighborProbabilities := ∅;
     startCapacity := 1; capacity := 1; consumption := 1;
     consumptionFactor := 1; booRechargeDistance := 5 |}.

(** The base of operations. *)
Definition boo : State nat :=
  {| address := "boo"; modelName := "boo";
     callbacks := ∅; RobotPlugin.neighbors := [];
     neighborProbabilities := ∅;
     startCapacity := 1; capacity := 1; consumption := 1;
     consumptionFactor := 1; booRechargeDistance := 5 |}.

(** A transport that queues what it is given, or refuses everything. *)
Definition queueing (ok : bool) (topic : string) (msg : Datagram)
    (t : list Datagram) : bool * list Datagram :=
  (ok, if ok then (t ++ [msg])%list else t).

Definition toRobot1 (rs : list string) : Datagram :=
  {| src_address := "192.168.2.2"; dst_address := "192.168.2.1";
     dst_port := 4100; data := "hello"; recipients := rs |}.

Definition toNobody (rs : list string) : Datagram :=
  {| src_address := "192.168.2.2"; dst_address := "192.168.2.9";
     dst_port := 4100; data := "hello"; recipients := rs |}.

(** Moving, away from the base, with the given physics step size. *)
Definition moving (step : Q) : Surroundings :=
  {| booDistance := Some 100%Q; linearIsZero := false;
     angularIsZero := true; maxStepSize := step |}.

(** Two robots one metre apart on the x axis. *)
Definition onAxis (a : string) : Position :=
  {| px := if String.eqb a "192.168.2.1" then 0 else 1; py := 0; pz := 0 |}.

(** The Euclidean distance between two points of the x axis. *)
Definition alongX (p q : Position) : Q := Qabs (px p - px q).

(** A world with nothing in the way, at the given time. *)
Definition openField (now : Q) : World :=
  {| simTime := now; position := onAxis; occlusion := λ _ _, [""] |}.

Definition activeNode : Node :=
  {| inOutage := false; outageEndTime := None; neighbors := ∅ |}.

Definition outagedNode (t : Q) : Node :=
  {| inOutage := true; outageEndTime := Some t; neighbors := ∅ |}.

(** Both robots active, last updated at time 0. *)
Definition bothActive : Engine :=
  {| swarm := {[ "192.168.2.1" := activeNode; "192.168.2.2" := activeNode ]};
     lastUpdateTime := 0; visibility := ∅ |}.

(** The second robot in an outage that ends at time 10. *)
Definition oneOutaged : Engine :=
  {| swarm := {[ "192.168.2.1" := activeNode;
                 "192.168.2.2" := outagedNode 10 ]};
     lastUpdateTime := 0; visibility := ∅ |}.

(** The defaults of the header, with the given outage probability and
    bounds on the outage duration. *)
Definition withOutages (probability lo hi : Q) : Config :=
  {| neighborDistanceMin := -1; neighborDistanceMax := -1;
     neighborDistancePenaltyTree := 0;
     commsDistanceMin := -1; commsDistanceMax := -1;
     commsDistancePenaltyTree := 0;
     commsDropProbabilityMin := 0; commsDropProbabilityMax := 0;
     commsOutageProbability := probability;
     commsOutageDurationMin := lo; commsOutageDurationMax := hi |}.

(** Neighbor and comms ranges of ten metres, no outages, no drops, and
    the given comms penalty for an obstruction. *)
Definition tenMetres (commsPenalty : Q) : Config :=
  {| neighborDistanceMin := -1; neighborDistanceMax := 10;
     neighborDistancePenaltyTree := 0;
     commsDistanceMin := -1; commsDistanceMax := 10;
     commsDistancePenaltyTree := commsPenalty;
     commsDropProbabilityMin := 0; commsDropProbabilityMax := 0;
     commsOutageProbability := 0;
     commsOutageDurationMin := -1; commsOutageDurationMax := -1 |}.

(** Trees cost the neighbor relation three metres of its ten and block
    the comms relation, which has no range limit otherwise. *)
Definition throughTrees : Config :=
  {| neighborDistanceMin := -1; neighborDistanceMax := 10;
     neighborDistancePenaltyTree := 3;
     commsDistanceMin := -1; commsDistanceMax := -1;
     commsDistancePenaltyTree := -1;
     commsDropProbabilityMin := 0; commsDropProbabilityMax := 0;
     commsOutageProbability := 0;
     commsOutageDurationMin := -1; commsOutageDurationMax := -1 |}.

(** A world with a line of trees between the two robots. *)
Definition forest (now : Q) : World :=
  {| simTime := now; position := onAxis;
     occlusion := λ _ _, ["tree_0"; "tree_0"] |}.

(** The robot of the battery test: 3500 mAh, 1500 mA, factor 0.7. *)
Definition testRobot : State nat :=
  {| address := "192.168.2.1"; modelName := "ground_0";
     callbacks := ∅; RobotPlugin.neighbors := [];
     neighborProbabilities := ∅;
     startCapacity := 3500; capacity := 3500; consumption := 1500;
     consumptionFactor := 7 # 10; booRechargeDistance := 5 |}.

(** Every sample of the tick is the same number. *)
Definition constantDraws (u : Q) : OutageDraws :=
  {| enterSample := λ _, u; durationSample := λ _, u |}.

(** Every sample of a send is the same number. *)
Definition constantDrops (u : Q) : DropDraws :=
  {| probabilitySample := λ _, u; dropSample := λ _, u |}.

End Examples.

From Stdlib Require Import Qround Ascii.

(** ** Topics *)

Module Topic.

(** No character of the string is a slash. *)
Fixpoint slashFree (s : string) : Prop :=
  match s with
  | EmptyString => True
  | String c s' => c ≠ "/"%char ∧ slashFree s'
  end.

End Topic.

(** ** Vectors ([ignition::math::Vector3d]) *)

Module Vector.

Record Vector3d := { vX : Q; vY : Q; vZ : Q }.

Definition Zero : Vector3d := {| vX := 0; vY := 0; vZ := 0 |}.
Definition UnitX : Vector3d := {| vX := 1; vY := 0; vZ := 0 |}.

(** The setters [X(v)], [Y(v)] and [Z(v)]. *)
Definition setX (v : Vector3d) (x : Q) : Vector3d :=
  {| vX := x; vY := vY v; vZ := vZ v |}.
Definition setY (v : Vector3d) (y : Q) : Vector3d :=
  {| vX := vX v; vY := y; vZ := vZ v |}.
Definition setZ (v : Vector3d) (z : Q) : Vector3d :=
  {| vX := vX v; vY := vY v; vZ := z |}.

Definition plus (a b : Vector3d) : Vector3d :=
  {| vX := vX a + vX b; vY := vY a + vY b; vZ := vZ a + vZ b |}.
Definition minus (a b : Vector3d) : Vector3d :=
  {| vX := vX a - vX b; vY := vY a - vY b; vZ := vZ a - vZ b |}.
(** [operator*] between two vectors multiplies component by component. *)
Definition times (a b : Vector3d) : Vector3d :=
  {| vX := vX a * vX b; vY := vY a * vY b; vZ := vZ a * vZ b |}.
Definition divide (a : Vector3d) (k : Q) : Vector3d :=
  {| vX := vX a / k; vY := vY a / k; vZ := vZ a / k |}.

Definition Dot (a b : Vector3d) : Q :=
  (vX a * vX b + vY a * vY b + vZ a * vZ b)%Q.

(** Equality of vectors up to the equality of rationals. *)
Definition veq (a b : Vector3d) : Prop :=
  (vX a == vX b)%Q ∧ (vY a == vY b)%Q ∧ (vZ a == vZ b)%Q.

(** [ignition::math::clamp(v, min, max)] is
    [std::max(std::min(v, max), min)]. *)
Definition clamp (v lo hi : Q) : Q := std_max (std_min v hi) lo.

End Vector.

(** ** The triangle of the terrain under the vehicle (src/RobotPlugin.cc,
    the vertex selection of [TerrainLookup]) *)

Module Terrain.
Import Vector.

(** [std::round]: to the nearest integer, halfway cases away from zero. *)
Definition roundZ (x : Q) : Z :=
  if Qle_bool 0 x then Qfloor (x + (1 # 2)) else Qceiling (x - (1 # 2)).

Definition round (x : Q) : Q := inject_Z (roundZ x).

Definition ceil (x : Q) : Q := inject_Z (Qceiling x).
Definition floor (x : Q) : Q := inject_Z (Qfloor x).

(** [static_cast<int>] of a [double]: the fractional part is dropped.
    The value has to fit an [int]; the conversion is undefined
    otherwise. *)
Definition toInt (x : Q) : Z := if Qle_bool 0 x then Qfloor x else Qceiling x.

Definition INT_MIN : Z := - 2 ^ 31.
Definition INT_MAX : Z := 2 ^ 31 - 1.

(** The grid coordinates round within the range of [int]. *)
Definition fitsInt (x : Q) : Prop :=
  (INT_MIN <= Qfloor x)%Z ∧ (Qceiling x <= INT_MAX)%Z.

Definition vec (x y z : Q) : Vector3d := {| vX := x; vY := y; vZ := z |}.

Section Vertices.

(** [Vector3d::Distance], as the library computes it: the selection is
    specified for whatever distances it returns, rounded or not. *)
Variable Distance : Vector3d → Vector3d → Q.

(** The three vertices of the triangle on which the vehicle rests, with
    their heights still at 0. [robotPos] is in the frame of the terrain. *)
Definition vertices (robotPos : Vector3d) : Vector3d * Vector3d * Vector3d :=
  let v1 := vec (round (vX robotPos)) (round (vY robotPos)) 0 in
  let v2 := v1 in
  let v3 := v1 in
  if (toInt (vX v1) =? toInt (ceil (vX robotPos)))%Z
     && (toInt (vY v1) =? toInt (ceil (vY robotPos)))%Z then
    if (Z.rem (toInt (vY v1)) 2 =? 0)%Z then
      (v1, setY v2 (vY v1 - 1), setX v3 (vX v1 - 1))
    else
      let b := vec (vX v1 - 1) (vY v1) 0 in
      let c := vec (vX v1) (vY v1 - 1) 0 in
      if Qltb (Distance robotPos b) (Distance robotPos c) then
        (v1, setY (setX v2 (vX v1 - 1)) (vY v1 - 1), b)
      else
        (v1, c, setY (setX v3 (vX v1 - 1)) (vY v1 - 1))
  else if (toInt (vX v1) =? toInt (floor (vX robotPos)))%Z
          && (toInt (vY v1) =? toInt (ceil (vY robotPos)))%Z then
    if (Z.rem (toInt (vY v1)) 2 =? 0)%Z then
      let b := vec (vX v1 + 1) (vY v1) 0 in
      let c := vec (vX v1) (vY v1 - 1) 0 in
      if Qltb (Distance robotPos b) (Distance robotPos c) then
        (v1, b, setY (setX v3 (vX v1 + 1)) (vY v1 - 1))
      else
        (v1, setY (setX v2 (vX v1 + 1)) (vY v1 - 1), c)
    else
      (v1, setX v2 (vX v1 + 1), setY v3 (vY v1 - 1))
  else if (toInt (vX v1) =? toInt (floor (vX robotPos)))%Z
          && (toInt (vY v1) =? toInt (floor (vY robotPos)))%Z then
    if (Z.rem (toInt (vY v1)) 2 =? 0)%Z then
      let b := vec (vX v1 + 1) (vY v1) 0 in
      let c := vec (vX v1) (vY v1 + 1) 0 in
      if Qltb (Distance robotPos b) (Distance robotPos c) then
        (v1, setY (setX v2 (vX v1 + 1)) (vY v1 + 1), b)
      else
        (v1, c, setY (setX v3 (vX v1 + 1)) (vY v1 + 1))
    else
      (v1, setY v2 (vY v1 + 1), setX v3 (vX v1 + 1))
  else
    if (Z.rem (toInt (vY v1)) 2 =? 0)%Z then
      (v1, setX v2 (vX v2 - 1), setY v3 (vY v3 + 1))
    else
      let b := vec (vX v1 - 1) (vY v1) 0 in
      let c := vec (vX v1) (vY v1 + 1) 0 in
      if Qltb (Distance robotPos b) (Distance robotPos c) then
        (v1, b, setY (setX v3 (vX v1 - 1)) (vY v1 + 1))
      else
        (v1, setY (setX v2 (vX v1 - 1)) (vY v1 + 1), c).

End Vertices.

(** What the plugin keeps of the heightmap: its size, the scaling from
    vertices to metres, and the height of a vertex
    ([HeightmapShape::GetHeight]). *)
Record Heightmap := {
  terrainSize : Vector3d;
  terrainScaling : Q * Q;
  GetHeight : Z → Z → Q;
}.

(** Twice the signed area of the triangle spanned by two edges in the
    plane. *)
Definition cross2 (u v : Vector3d) : Q := (vX u * vY v - vY u * vX v)%Q.

(** A vertex is a corner of the grid cell whose lower corner is
    [(i, j)]. *)
Definition cornerOf (i j : Z) (v : Vector3d) : Prop :=
  ((vX v == inject_Z i)%Q ∨ (vX v == inject_Z i + 1)%Q)
  ∧ ((vY v == inject_Z j)%Q ∨ (vY v == inject_Z j + 1)%Q).

End Terrain.

(** ** Motion, sensors and the update loop (src/RobotPlugin.cc) *)

Module Vehicle.
Import Vector Terrain RobotPlugin.

Inductive VehicleType := GROUND | ROTOR | FIXED_WING.

(** [IGN_PI]: the [double] nearest to pi. *)
Definition IGN_PI : Q := 884279719003555 # 281474976710656.
(** [Angle::HalfPi] and [Angle::TwoPi]. *)
Definition HalfPi : Q := IGN_PI / 2.
Definition TwoPi : Q := IGN_PI * 2.
(** [IGN_DTOR]: degrees to radians. *)
Definition IGN_DTOR (d : Q) : Q := d * IGN_PI / 180.

(** The velocity limits of the three types of vehicle. *)
Record Limits := {
  groundMaxLinearVel : Q;
  groundMaxAngularVel : Q;
  rotorMaxLinearVel : Q;
  rotorMaxAngularVel : Q;
  fixedMaxLinearVel : Q;
  fixedMaxAngularVel : Q;
}.

Section Vehicle.

Context {Callback : Type}.

(** [ignition::math::Quaterniond], with the operations the plugin uses:
    [RotateVector], [Euler()] and the setter [Euler(roll, pitch, yaw)]. *)
Context {Quaternion : Type}.
Variable RotateVector : Quaternion → Vector3d → Vector3d.
Variable Euler : Quaternion → Vector3d.
Variable FromEuler : Q → Q → Q → Quaternion.

(** [Vector3d::Length], [Vector3d::Normalize] and the comparison
    [operator==] of two vectors. *)
Variable Length : Vector3d → Q.
Variable Normalize : Vector3d → Vector3d.
Variable vectorEq : Vector3d → Vector3d → bool.
(** [ignition::math::equal], the comparison of two numbers up to a
    tolerance. *)
Variable equal : Q → Q → bool.
(** The functions of [<cmath>]. *)
Variable tan : Q → Q.
Variable cos : Q → Q.
Variable sin : Q → Q.
Variable acos : Q → Q.

Record Pose3d := { Pos : Vector3d; Rot : Quaternion }.

(** What the sensors last observed. *)
Record Observations := {
  observedLatitude : Q;
  observedLongitude : Q;
  observedAltitude : Q;
  observedlinVel : Vector3d;
  observedAngVel : Vector3d;
  observedOrient : Quaternion;
  observedBearing : Q;
  linearVelocityNoNoise : Vector3d;
  angularVelocityNoNoise : Vector3d;
  img : gmap string Pose3d;
}.

(** The plugin: the state of the router and of the battery, and the
    state of the vehicle. *)
Record Robot := {
  plugin : State Callback;
  type : VehicleType;
  limits : Limits;
  targetLinVel : Vector3d;
  targetAngVel : Vector3d;
  observed : Observations;
  modelHeight2 : Q;
  terrain : option Heightmap;
}.

(** The physics model of the robot ([this->model]): its pose in the
    world and the velocities set on it. *)
Record Model := {
  worldPose : Pose3d;
  linearVel : Vector3d;
  angularVel : Vector3d;
}.

Definition setPlugin (r : Robot) (p : State Callback) : Robot :=
  {| plugin := p; type := type r; limits := limits r;
     targetLinVel := targetLinVel r; targetAngVel := targetAngVel r;
     observed := observed r; modelHeight2 := modelHeight2 r;
     terrain := terrain r |}.

Definition setObserved (r : Robot) (o : Observations) : Robot :=
  {| plugin := plugin r; type := type r; limits := limits r;
     targetLinVel := targetLinVel r; targetAngVel := targetAngVel r;
     observed := o; modelHeight2 := modelHeight2 r;
     terrain := terrain r |}.

Definition setTargetLinVel (r : Robot) (v : Vector3d) : Robot :=
  {| plugin := plugin r; type := type r; limits := limits r;
     targetLinVel := v; targetAngVel := targetAngVel r;
     observed := observed r; modelHeight2 := modelHeight2 r;
     terrain := terrain r |}.

Definition setTargetAngVel (r : Robot) (v : Vector3d) : Robot :=
  {| plugin := plugin r; type := type r; limits := limits r;
     targetLinVel := targetLinVel r; targetAngVel := v;
     observed := observed r; modelHeight2 := modelHeight2 r;
     terrain := terrain r |}.

Definition SetLinearVel (m : Model) (v : Vector3d) : Model :=
  {| worldPose := worldPose m; linearVel := v; angularVel := angularVel m |}.

Definition SetAngularVel (m : Model) (v : Vector3d) : Model :=
  {| worldPose := worldPose m; linearVel := linearVel m; angularVel := v |}.

(** [SetWorldPose], and [SetRelativePose] for a model that has no
    parent. *)
Definition SetWorldPose (m : Model) (p : Pose3d) : Model :=
  {| worldPose := p; linearVel := linearVel m; angularVel := angularVel m |}.

(** *** Velocity commands *)

Definition SetLinearVelocity (r : Robot) (_velocity : Vector3d)
  : bool * Robot :=
  if Qle_bool (capacity (plugin r)) 0 then (false, r)
  else (true, setTargetLinVel r _velocity).

Definition SetAngularVelocity (r : Robot) (_velocity : Vector3d)
  : bool * Robot :=
  if Qle_bool (capacity (plugin r)) 0 then (false, r)
  else (true, setTargetAngVel r _velocity).

Definition UpdateLinearVelocity (r : Robot) (m : Model) : Model :=
  if Qle_bool (capacity (plugin r)) 0 then m
  else
    let myPose := worldPose m in
    let '(linearVel, limitFactor) :=
      match type r with
      | GROUND =>
          let v := RotateVector (Rot myPose) (times (targetLinVel r) UnitX) in
          (v, (Length v / groundMaxLinearVel (limits r))%Q)
      | ROTOR =>
          let v := RotateVector (Rot myPose) (targetLinVel r) in
          (v, (Length v / rotorMaxLinearVel (limits r))%Q)
      | FIXED_WING =>
          let v := RotateVector (Rot myPose) (times (targetLinVel r) UnitX) in
          (v, (Length v / fixedMaxLinearVel (limits r))%Q)
      end in
    SetLinearVel m (divide linearVel (clamp limitFactor 1 limitFactor)).

Definition UpdateAngularVelocity (r : Robot) (m : Model) : Model :=
  if Qle_bool (capacity (plugin r)) 0 then m
  else
    match type r with
    | GROUND =>
        let vel := clamp (vZ (targetAngVel r))
                     (- groundMaxAngularVel (limits r))
                     (groundMaxAngularVel (limits r)) in
        SetAngularVel m (vec vel 0 0)
    | ROTOR =>
        let limitFactor :=
          (Length (targetAngVel r) / rotorMaxAngularVel (limits r))%Q in
        SetAngularVel m
          (divide (targetAngVel r) (clamp limitFactor 1 limitFactor))
    | FIXED_WING =>
        let rpy := Euler (observedOrient (observed r)) in
        let forward := vX (linearVelocityNoNoise (observed r)) in
        let '(yawRate, rollRate) :=
          if negb (equal forward 0) then
            (clamp (-(981 # 100) * tan (vX rpy) / forward)
               (- IGN_DTOR 10) (IGN_DTOR 10),
             clamp (vX (targetAngVel r)) (- IGN_DTOR 5) (IGN_DTOR 5))
          else (0, 0)%Q in
        SetAngularVel m
          (vec rollRate
             (clamp (vY (targetAngVel r))
                (- fixedMaxAngularVel (limits r))
                (fixedMaxAngularVel (limits r)))
             yawRate)
    end.

(** The linear velocity the targets ask for, in the world frame, and
    the limit that applies to the type of the vehicle. *)
Definition requestedLinearVel (r : Robot) (m : Model) : Vector3d :=
  match type r with
  | GROUND | FIXED_WING =>
      RotateVector (Rot (worldPose m)) (times (targetLinVel r) UnitX)
  | ROTOR => RotateVector (Rot (worldPose m)) (targetLinVel r)
  end.

Definition maxLinearVel (r : Robot) : Q :=
  match type r with
  | GROUND => groundMaxLinearVel (limits r)
  | ROTOR => rotorMaxLinearVel (limits r)
  | FIXED_WING => fixedMaxLinearVel (limits r)
  end.

(** *** Sensors *)

(** What the sensors and the simulator give during one update: the
    readings of the GPS, the IMU and the logical camera when the robot
    has them, the velocities and the yaw of the model, and the samples
    of the normal noise. *)
Record Readings := {
  gps : option (Q * Q * Q);
  imu : option (Vector3d * Quaternion);
  relativeLinearVel : Vector3d;
  relativeAngularVel : Vector3d;
  yaw : Q;
  camera : option (list (string * Pose3d));
  linearNoise : Vector3d;
  bearingNoise : Q;
}.

(** The loop over the models of the logical camera image. *)
Fixpoint seeObjects (models : list (string * Pose3d))
    (objects : gmap string Pose3d) : gmap string Pose3d :=
  match models with
  | [] => objects
  | imgModel :: models' =>
      seeObjects models'
        (if negb (String.eqb imgModel.1 "ground_plane")
         then <[imgModel.1 := imgModel.2]> objects
         else objects)
  end.

(** The bearing, from the yaw of the model and the noise added to it. *)
Definition compass (yawWithNoise : Q) : Q :=
  let bearing := (HalfPi - yawWithNoise)%Q in
  if Qltb bearing 0 then (TwoPi + bearing)%Q else bearing.

Definition UpdateSensors (o : Observations) (s : Readings) : Observations :=
  let '(lat, lon, alt) :=
    match gps s with
    | Some reading => reading
    | None => (observedLatitude o, observedLongitude o, observedAltitude o)
    end in
  let '(linNoNoise, angNoNoise, linVel, angVel, orient) :=
    match imu s with
    | Some (angular, orientation) =>
        (relativeLinearVel s, relativeAngularVel s,
         plus (relativeLinearVel s) (linearNoise s), angular, orientation)
    | None =>
        (linearVelocityNoNoise o, angularVelocityNoNoise o,
         observedlinVel o, observedAngVel o, observedOrient o)
    end in
  {| observedLatitude := lat; observedLongitude := lon;
     observedAltitude := alt;
     observedlinVel := linVel; observedAngVel := angVel;
     observedOrient := orient;
     observedBearing := compass (yaw s + bearingNoise s);
     linearVelocityNoNoise := linNoNoise;
     angularVelocityNoNoise := angNoNoise;
     img := match camera s with
            | Some models => seeObjects models ∅
            | None => ∅
            end |}.

(** *** Terrain following *)

(** [TerrainLookup]: the position of the terrain under a point and the
    normal of the terrain there. Past the selection of the vertices it
    is a ray cast in floating point arithmetic, which rationals do not
    reproduce; [AdjustPose] is specified for whatever the lookup
    returns. *)
Variable TerrainLookup : Heightmap → Vector3d → Vector3d * Vector3d.

Definition setPos (p : Pose3d) (v : Vector3d) : Pose3d :=
  {| Pos := v; Rot := Rot p |}.

Definition setRot (p : Pose3d) (q : Quaternion) : Pose3d :=
  {| Pos := Pos p; Rot := q |}.

(** The pose constrained to the terrain boundaries. *)
Definition constrained (hm : Heightmap) (pose : Pose3d) : Pose3d :=
  let pose := setPos pose
    (setX (Pos pose)
       (clamp (vX (Pos pose)) (- vX (terrainSize hm) * (1 # 2))
          (vX (terrainSize hm) * (1 # 2)))) in
  setPos pose
    (setY (Pos pose)
       (clamp (vY (Pos pose)) (- vY (terrainSize hm) * (1 # 2))
          (vY (terrainSize hm) * (1 # 2)))).

Definition AdjustPose (r : Robot) (m : Model) : Model :=
  match terrain r with
  | None => m
  | Some hm =>
      let pose := constrained hm (worldPose m) in
      let '(terrainPos, norm) := TerrainLookup hm (Pos pose) in
      match type r with
      | GROUND =>
          let euler := Euler (Rot pose) in
          let norm2d := Normalize (vec (vX norm) (vY norm) 0) in
          let normPitchDir := vec (cos (vZ euler)) (sin (vZ euler)) 0 in
          let normRollDir := vec (sin (vZ euler)) (- cos (vZ euler)) 0 in
          let pitch := (Dot norm2d normPitchDir * acos (vZ norm))%Q in
          let roll := (Dot norm2d normRollDir * acos (vZ norm))%Q in
          let pose :=
            setPos pose (setZ (Pos pose) (vZ terrainPos + modelHeight2 r)) in
          let pose :=
            setRot pose (FromEuler roll pitch (vZ (Euler (Rot pose)))) in
          SetWorldPose m pose
      | ROTOR | FIXED_WING =>
          if Qltb (vZ (Pos pose)) (vZ terrainPos + modelHeight2 r) then
            SetWorldPose m
              (setPos pose
                 (setZ (Pos pose) (vZ terrainPos + modelHeight2 r)))
          else m
      end
  end.

(** *** The update loop *)

(** What the team controller does to the vehicle in its [Update]: it
    commands velocities through [SetLinearVelocity] and
    [SetAngularVelocity]. (The datagrams it sends go to the transport,
    not to this state.) *)
Inductive Command :=
| CommandLinear (v : Vector3d)
| CommandAngular (v : Vector3d).

Definition obey (r : Robot) (c : Command) : Robot :=
  match c with
  | CommandLinear v => (SetLinearVelocity r v).2
  | CommandAngular v => (SetAngularVelocity r v).2
  end.

(** What the loop reads from the simulator besides the sensors: the
    position of the base of operations when there is one, and the
    maximum step size of the physics engine. *)
Record Simulator := {
  booPosition : option Vector3d;
  stepSize : Q;
}.

Definition surroundings (r : Robot) (m : Model) (w : Simulator)
  : Surroundings :=
  {| booDistance :=
       (λ b, Length (minus (Pos (worldPose m)) b)) <$> booPosition w;
     linearIsZero := vectorEq (linearVelocityNoNoise (observed r)) Zero;
     angularIsZero := vectorEq (angularVelocityNoNoise (observed r)) Zero;
     maxStepSize := stepSize w |}.

Definition Loop (controller : Robot → list Command) (w : Simulator)
    (s : Readings) (rm : Robot * Model) : Robot * Model :=
  let '(r, m) := rm in
  let r := setPlugin r (UpdateBattery (plugin r) (surroundings r m w)) in
  let r :=
    if Qltb 0 (capacity (plugin r)) then
      let r := setObserved r (UpdateSensors (observed r) s) in
      let r := (SetLinearVelocity r (vec 0 0 0)).2 in
      (SetAngularVelocity r (vec 0 0 0)).2
    else r in
  let r := foldl obey r (controller r) in
  let m := UpdateLinearVelocity r m in
  let m := UpdateAngularVelocity r m in
  (r, AdjustPose r m).

(** The loop run once for every entry of a list of what the simulator
    and the sensors give. *)
Definition iterations (controller : Robot → list Command)
    (inputs : list (Simulator * Readings)) (rm : Robot * Model)
  : Robot * Model :=
  foldl (λ rm ws, Loop controller ws.1 ws.2 rm) rm inputs.

(** What keeps a robot from recharging at every later update: a
    velocity last observed that is not zero, or a world without a
    base. *)
Definition stranded (r : Robot) (inputs : list (Simulator * Readings))
  : Prop :=
  vectorEq (linearVelocityNoNoise (observed r)) Zero = false
  ∨ vectorEq (angularVelocityNoNoise (observed r)) Zero = false
  ∨ ((booRechargeDistance (plugin r) <= IGN_DBL_MAX)%Q
     ∧ Forall (λ ws, booPosition ws.1 = None) inputs).

End Vehicle.

End Vehicle.

(** ** The battery over time (src/RobotPlugin.cc) *)

Module Battery.
Import Vector RobotPlugin.

(** The [<battery>] element of the plugin's SDF. *)
Record BatterySDF := {
  sdfCapacity : Q;
  sdfConsumption : Q;
  sdfConsumptionFactor : Q;
}.

Section Battery.

Context {Callback : Type}.

Definition setBattery (r : State Callback) (start c cons factor : Q)
  : State Callback :=
  {| address := address r; modelName := modelName r;
     callbacks := callbacks r; neighbors := neighbors r;
     neighborProbabilities := neighborProbabilities r;
     startCapacity := start; capacity := c;
     consumption := cons; consumptionFactor := factor;
     booRechargeDistance := booRechargeDistance r |}.

(** The battery as the constructor leaves it. *)
Definition constructed (r : State Callback) : State Callback :=
  setBattery r 1%Q 1%Q 0%Q 0%Q.

(** The part of [Load] that reads the battery, when the SDF has a
    [<battery>] element. *)
Definition LoadBattery (r : State Callback) (battery : option BatterySDF)
  : State Callback :=
  match battery with
  | Some b =>
      setBattery r (sdfCapacity b) (sdfCapacity b) (sdfConsumption b)
        (clamp (sdfConsumptionFactor b) 0 1)
  | None => r
  end.

End Battery.

End Battery.

(** ** The example team controller (example/TeamControllerPlugin.cc) *)

Module TeamController.
Import RobotPlugin.

(** The counters of the controller; [msgsSent] only grows while it is
    under [numMessageToSend], so it stays within the range of [int]. *)
Record Controller := {
  msgsSent : Z;
  numMessageToSend : Z;
}.

Section Controller.

Context {Callback Transport : Type}.
Variable Publish : string → Datagram → Transport → bool * Transport.
Variable kMtu : N.

(** The default port of [SendTo] and the reserved addresses, constants
    of the plugin class. *)
Variable kDefaultPort : N.
Variable kBroadcast : string.
Variable kMulticast : string.

(** The destination of the unicast message. *)
Definition peer (host : string) : string :=
  if String.eqb host "192.168.2.1" then "192.168.2.2"
  else if String.eqb host "192.168.2.2" then "192.168.2.1"
  else "".

Definition sendErrorLine (r : State Callback) (dstAddress : string) : string :=
  "[" +:+ Host r +:+ "] TeamControllerPlugin::Update(): " +:+
  "Error sending a message to <" +:+ dstAddress +:+ ",DEFAULT_PORT>".

Definition sent (c : Controller) : Controller :=
  {| msgsSent := msgsSent c + 1; numMessageToSend := numMessageToSend c |}.

(** Returns the controller, the transport and the lines logged. *)
Definition Update (c : Controller) (r : State Callback) (t : Transport)
  : Controller * Transport * list string :=
  if (msgsSent c <? numMessageToSend c)%Z then
    let c := sent c in
    let dstAddress := peer (Host r) in
    let '(ok, t, log1) :=
      SendTo Publish kMtu r t "Unicast data" dstAddress kDefaultPort in
    if negb ok then (c, t, (log1 ++ [sendErrorLine r dstAddress])%list)
    else
      let dstAddress := kBroadcast in
      let '(ok, t, log2) :=
        SendTo Publish kMtu r t "Broadcast data" dstAddress kDefaultPort in
      if negb ok then
        (c, t, (log1 ++ log2 ++ [sendErrorLine r dstAddress])%list)
      else
        let dstAddress := kMulticast in
        let '(ok, t, log3) :=
          SendTo Publish kMtu r t "Multicast data" dstAddress kDefaultPort in
        if negb ok then
          (c, t, (log1 ++ log2 ++ log3 ++ [sendErrorLine r dstAddress])%list)
        else (c, t, (log1 ++ log2 ++ log3)%list)
  else (c, t, []).

(** The controller and the transport after a number of updates. *)
Fixpoint updates (n : nat) (c : Controller) (r : State Callback)
    (t : Transport) : Controller * Transport :=
  match n with
  | O => (c, t)
  | S n' => let '(c', t', _) := Update c r t in updates n' c' r t'
  end.

(** What [Update] may send: a datagram from the host on the default
    port, to the peer or to a reserved address. *)
Definition fromController (r : State Callback) (msg : Datagram) : Prop :=
  src_address msg = Host r ∧ dst_port msg = kDefaultPort
  ∧ recipients msg = []
  ∧ (dst_address msg = peer (Host r) ∨ dst_address msg = kBroadcast
     ∨ dst_address msg = kMulticast).

End Controller.

(** A transport that also keeps the datagrams it was given. *)
Definition recording {Transport : Type}
    (Publish : string → Datagram → Transport → bool * Transport)
    (topic : string) (msg : Datagram) (t : Transport * list Datagram)
  : bool * (Transport * list Datagram) :=
  ((Publish topic msg t.1).1, ((Publish topic msg t.1).2, (t.2 ++ [msg])%list)).

End TeamController.

(** ** Concrete vehicles *)

Module Fleet.
Import Vector Terrain RobotPlugin Vehicle Battery TeamController.

(** Orientations are left out: every rotation is the identity. *)
Definition noRotation (_ : unit) (v : Vector3d) : Vector3d := v.
Definition noEuler (_ : unit) : Vector3d := Zero.
Definition fromNoEuler (_ _ _ : Q) : unit := tt.

(** The Euclidean length to six decimals: the square root of the sum
    of the squares, rounded down. *)
Definition euclidean (v : Vector3d) : Q :=
  inject_Z (Z.sqrt (Qfloor (Dot v v * 1000000000000))) / 1000000.

(** The same for the distance between two points. *)
Definition apart (a b : Vector3d) : Q := euclidean (minus a b).

Definition keep (v : Vector3d) : Vector3d := v.

(** A lookup for a terrain that is level at the height of its first
    vertex. *)
Definition level (hm : Heightmap) (_pos : Vector3d) : Vector3d * Vector3d :=
  (vec (vX _pos) (vY _pos) (GetHeight hm 0 0), vec 0 0 1).

Definition sameVector (a b : Vector3d) : bool :=
  Qeq_bool (vX a) (vX b) && Qeq_bool (vY a) (vY b) && Qeq_bool (vZ a) (vZ b).

Definition flat (_ : Q) : Q := 0%Q.

(** Two numbers compared exactly. *)
Definition exactly (a b : Q) : bool := Qeq_bool a b.

(** A terrain of 10 m by 10 m with a vertex every metre, two metres
    high everywhere. *)
Definition plateau : Heightmap :=
  {| terrainSize := vec 10 10 2; terrainScaling := (1%Q, 1%Q);
     GetHeight := λ _ _, 2%Q |}.

Definition speedLimits : Limits :=
  {| groundMaxLinearVel := 2; groundMaxAngularVel := 1;
     rotorMaxLinearVel := 5; rotorMaxAngularVel := 2;
     fixedMaxLinearVel := 10; fixedMaxAngularVel := 1 |}.

Definition blind : @Observations unit :=
  {| observedLatitude := 0; observedLongitude := 0; observedAltitude := 0;
     observedlinVel := Zero; observedAngVel := Zero; observedOrient := tt;
     observedBearing := 0; linearVelocityNoNoise := Zero;
     angularVelocityNoNoise := Zero; img := ∅ |}.

(** A vehicle of the given type on the plateau, with the given battery
    capacity, asked to move at 3 m/s forward and 4 m/s sideways. *)
Definition vehicle (kind : VehicleType) (charge : Q) : @Robot nat unit :=
  {| plugin := setCapacity Examples.robot1 charge; type := kind;
     limits := speedLimits;
     targetLinVel := vec 3 4 0; targetAngVel := vec 3 0 4;
     observed := blind; modelHeight2 := 1 # 2; terrain := Some plateau |}.

(** A model at the given position, at rest. *)
Definition parked (x y z : Q) : @Model unit :=
  {| worldPose := {| Pos := vec x y z; Rot := tt |};
     linearVel := Zero; angularVel := Zero |}.

Definition still : @Readings unit :=
  {| gps := Some (1, 2, 3)%Q; imu := None;
     relativeLinearVel := Zero; relativeAngularVel := Zero;
     yaw := 0; camera := None; linearNoise := Zero; bearingNoise := 0 |}.

(** A model heading west-south-west, with a noisy compass. *)
Definition turned : @Readings unit :=
  {| gps := None; imu := None;
     relativeLinearVel := Zero; relativeAngularVel := Zero;
     yaw := 3; camera := None; linearNoise := Zero;
     bearingNoise := 1 # 10 |}.

Definition noBase (step : Q) : Simulator :=
  {| booPosition := None; stepSize := step |}.

(** A controller that asks for 1 m/s forward at every update. *)
Definition forward (_ : @Robot nat unit) : list Command :=
  [CommandLinear (vec 1 0 0)].

(** A controller that changes its mind about the speed, then turns. *)
Definition zigzag (_ : @Robot nat unit) : list Command :=
  [CommandLinear (vec 1 0 0); CommandLinear (vec 2 0 0);
   CommandAngular (vec 0 0 1)].

End Fleet.

(** * Properties *)

(** ** Rationals *)

Lemma Qltb_lt x y : Qltb x y = true ↔ (x < y)%Q.
Proof.
  unfold Qltb. rewrite negb_true_iff, <- not_true_iff_false, Qle_bool_iff.
  split; [apply Qnot_le_lt | apply Qlt_not_le].
Qed.

Lemma Qltb_ge x y : Qltb x y = false ↔ (y <= x)%Q.
Proof. unfold Qltb. rewrite negb_false_iff. apply Qle_bool_iff. Qed.

Lemma std_min_le_l a b : (std_min a b <= a)%Q.
Proof.
  unfold std_min. destruct (Qltb b a) eqn:E; [|lra].
  apply Qltb_lt in E. lra.
Qed.

Lemma std_min_le_r a b : (std_min a b <= b)%Q.
Proof.
  unfold std_min. destruct (Qltb b a) eqn:E; [lra|].
  by apply Qltb_ge in E.
Qed.

Lemma std_min_glb a b c : (c <= a)%Q → (c <= b)%Q → (c <= std_min a b)%Q.
Proof. intros Ha Hb. unfold std_min. by destruct (Qltb b a). Qed.

Lemma std_max_ge_l a b : (a <= std_max a b)%Q.
Proof.
  unfold std_max. destruct (Qltb a b) eqn:E; [|lra].
  apply Qltb_lt in E. lra.
Qed.

Lemma std_max_lub a b c : (a <= c)%Q → (b <= c)%Q → (std_max a b <= c)%Q.
Proof. intros Ha Hb. unfold std_max. by destruct (Qltb a b). Qed.

(** ** Strings *)

Lemma eqb_true_iff (a b : string) : String.eqb a b = true ↔ a = b.
Proof. apply String.eqb_eq. Qed.

Lemma eqb_false_iff (a b : string) : String.eqb a b = false ↔ a ≠ b.
Proof. apply String.eqb_neq. Qed.

(** ** The robot plugin *)

Module RobotPluginProofs.
Import RobotPlugin Examples.

Section Receive.

Context {Callback : Type}.

Implicit Types (r : State Callback) (msg : Datagram).

(** The scan of the recipients decides membership. *)
Lemma visibleIn_elem_of host rs : visibleIn host rs = true ↔ host ∈ rs.
Proof.
  induction rs as [|x rs IH]; simpl.
  - split; [discriminate | by intros ?%elem_of_nil].
  - rewrite elem_of_cons. destruct (String.eqb x host) eqn:E.
    + apply eqb_true_iff in E. subst. tauto.
    + apply eqb_false_iff in E. rewrite IH. split; [tauto|].
      intros [->|?]; [done | assumption].
Qed.

Lemma visibleIn_not_elem_of host rs : visibleIn host rs = false ↔ host ∉ rs.
Proof.
  rewrite <- visibleIn_elem_of. destruct (visibleIn host rs); split; congruence.
Qed.

(** The push loop keeps what it had and appends the entries that differ
    from the host, in order. *)
Lemma pushNeighbors_filter host (l acc : list string) :
  pushNeighbors host l acc = (acc ++ filter (λ x, x ≠ host) l)%list.
Proof.
  revert acc. induction l as [|x l IH]; intros acc; simpl.
  - by rewrite app_nil_r.
  - rewrite IH. destruct (String.eqb x host) eqn:E.
    + apply eqb_true_iff in E. by rewrite filter_cons_False by tauto.
    + apply eqb_false_iff in E. rewrite filter_cons_True by done.
      by rewrite <- app_assoc.
Qed.

(** A datagram whose recipients do not contain the host's address runs
    no callback. *)
Lemma OnMsgReceived_not_recipient r msg :
  Host r ∉ recipients msg →
  ∀ cb src dst port payload,
    UserCallback cb src dst port payload ∉ OnMsgReceived r msg.
Proof.
  intros Hnot cb src dst port payload. unfold OnMsgReceived.
  apply visibleIn_not_elem_of in Hnot. rewrite Hnot.
  destruct (callbacks r !! topicOf msg).
  - apply not_elem_of_nil.
  - intros Hin%list_elem_of_singleton. discriminate.
Qed.

(** C3: when the destination of a datagram has a bound callback, the
    callback runs iff the host's address is among the recipients; and
    whatever is bound, a datagram whose recipients do not contain the
    host's address runs no callback. *)
Theorem OnMsgReceived_recipient_gate r msg :
  (∀ cb, callbacks r !! topicOf msg = Some cb →
     (OnMsgReceived r msg
      = [UserCallback cb (src_address msg) (dst_address msg) (dst_port msg)
           (data msg)]
      ↔ Host r ∈ recipients msg))
  ∧ (Host r ∉ recipients msg →
     ∀ cb src dst port payload,
       UserCallback cb src dst port payload ∉ OnMsgReceived r msg).
Proof.
  split.
  - intros cb Hcb. unfold OnMsgReceived. rewrite Hcb.
    rewrite <- visibleIn_elem_of.
    destruct (visibleIn (Host r) (recipients msg)); split; congruence.
  - apply OnMsgReceived_not_recipient.
Qed.

(** C6: when the destination of a datagram has no bound callback, the
    handler writes the not-found line and does nothing else: no callback
    runs, and nothing goes back to the sender. *)
Theorem OnMsgReceived_unknown_destination r msg :
  callbacks r !! topicOf msg = None →
  OnMsgReceived r msg = [GzErr (notFoundLine r (topicOf msg))]
  ∧ (∀ cb src dst port payload,
       UserCallback cb src dst port payload ∉ OnMsgReceived r msg).
Proof.
  intros Hnone. unfold OnMsgReceived. rewrite Hnone. split; [done|].
  intros cb src dst port payload Hin%list_elem_of_singleton. discriminate.
Qed.

(** C9: the callback lookup comes before the recipients check. With no
    callback bound, the not-found line is written even when the host is
    not among the recipients; with a callback bound and the host not
    among the recipients, the datagram is discarded with no line written
    and no callback run. *)
Theorem OnMsgReceived_check_order r msg :
  Host r ∉ recipients msg →
  (callbacks r !! topicOf msg = None →
     OnMsgReceived r msg = [GzErr (notFoundLine r (topicOf msg))])
  ∧ (is_Some (callbacks r !! topicOf msg) → OnMsgReceived r msg = []).
Proof.
  intros Hnot%visibleIn_not_elem_of. unfold OnMsgReceived. split.
  - by intros ->.
  - intros [cb ->]. by rewrite Hnot.
Qed.

(** C5: a neighbor update replaces the cache by the addresses of the
    message without the host's own address; the previous cache has no
    influence, and the host's address is never in the cache. *)
Theorem OnNeighborsReceived_replaces r (update : list string) :
  neighbors (OnNeighborsReceived r update) = filter (λ x, x ≠ Host r) update
  ∧ (∀ old, neighbors (OnNeighborsReceived (setNeighbors r old) update)
            = neighbors (OnNeighborsReceived r update))
  ∧ (Host r ∉ neighbors (OnNeighborsReceived r update))
  ∧ (∀ x, x ∈ neighbors (OnNeighborsReceived r update)
          ↔ x ∈ update ∧ x ≠ Host r).
Proof.
  assert (Heq : ∀ r', neighbors (OnNeighborsReceived r' update)
                      = filter (λ x, x ≠ Host r') update).
  { intros r'. simpl. by rewrite pushNeighbors_filter. }
  split; [apply Heq|]. split; [intros old; by rewrite !Heq|].
  rewrite Heq. split.
  - by intros [Hne _]%list_elem_of_filter.
  - intros x. rewrite list_elem_of_filter. tauto.
Qed.

(** The battery update leaves every field but the capacity alone. *)
Lemma UpdateBattery_startCapacity r e :
  startCapacity (UpdateBattery r e) = startCapacity r.
Proof.
  unfold UpdateBattery.
  by destruct (String.eqb (modelName r) "boo"), (recharging r e).
Qed.

(** C10: for the model named boo the battery update changes nothing; for
    any other model, with non-negative consumption and consumption
    factor and a capacity that starts within [0, startCapacity], the
    capacity stays within that interval: it does not grow when
    discharging, where it is clamped below by 0, and does not shrink
    when recharging, where it is clamped above by [startCapacity]. The
    step is the maximum step size of the physics engine, a duration,
    which is not negative. *)
Theorem UpdateBattery_capacity_bounds r e :
  (modelName r = "boo" → UpdateBattery r e = r)
  ∧ (modelName r ≠ "boo" →
     (0 <= consumption r)%Q → (0 <= consumptionFactor r)%Q →
     (0 <= maxStepSize e)%Q →
     (0 <= capacity r)%Q → (capacity r <= startCapacity r)%Q →
     (0 <= capacity (UpdateBattery r e))%Q
     ∧ (capacity (UpdateBattery r e) <= startCapacity (UpdateBattery r e))%Q
     ∧ (recharging r e = false →
        (capacity (UpdateBattery r e) <= capacity r)%Q)
     ∧ (recharging r e = true →
        (capacity r <= capacity (UpdateBattery r e))%Q)).
Proof.
  split.
  - intros Hboo. unfold UpdateBattery. by rewrite Hboo.
  - intros Hname%eqb_false_iff Hc Hf Hs Hlo Hhi.
    rewrite UpdateBattery_startCapacity. unfold UpdateBattery.
    rewrite Hname.
    assert (Hstep : (0 <= maxStepSize e / 3600)%Q).
    { apply Qle_shift_div_l; lra. }
    assert (Hcf : (0 <= consumption r * consumptionFactor r)%Q).
    { by apply Qmult_le_0_compat. }
    destruct (recharging r e); simpl.
    + assert (Hre : (0 <= consumption r * (consumptionFactor r * 4)
                          * (maxStepSize e / 3600))%Q).
      { apply Qmult_le_0_compat; [|done].
        apply Qmult_le_0_compat; [done|lra]. }
      split; [apply std_min_glb; lra|].
      split; [apply std_min_le_r|].
      split; [done|]. intros _. apply std_min_glb; lra.
    + assert (Hco : (0 <= consumption r * consumptionFactor r
                          * (maxStepSize e / 3600))%Q).
      { by apply Qmult_le_0_compat. }
      split; [apply std_max_ge_l|].
      split; [apply std_max_lub; lra|].
      split; [|done]. intros _. apply std_max_lub; lra.
Qed.

End Receive.

Section Send.

Context {Callback Transport : Type}.
Variable Publish : string → Datagram → Transport → bool * Transport.
Variable kMtu : N.

Implicit Types (r : State Callback) (t : Transport).

(** C4: [SendTo] fails with the payload-too-large line, leaving the
    transport untouched, when the payload is larger than [kMtu]; it fails
    with the publish line when the broker publish fails; it succeeds
    otherwise. It succeeds iff the payload fits and the publish succeeds. *)
Theorem SendTo_outcome r t (payload dst : string) (port : N) :
  ((kMtu < payloadSize payload)%N →
     SendTo Publish kMtu r t payload dst port
     = (false, t, [payloadTooLargeLine kMtu r (payloadSize payload)]))
  ∧ ((payloadSize payload ≤ kMtu)%N →
     (Publish kBrokerIncomingTopic (outgoing r payload dst port) t).1 = false →
     SendTo Publish kMtu r t payload dst port
     = (false, (Publish kBrokerIncomingTopic (outgoing r payload dst port) t).2,
        [publishFailureLine r]))
  ∧ ((payloadSize payload ≤ kMtu)%N →
     (Publish kBrokerIncomingTopic (outgoing r payload dst port) t).1 = true →
     SendTo Publish kMtu r t payload dst port
     = (true, (Publish kBrokerIncomingTopic (outgoing r payload dst port) t).2,
        []))
  ∧ ((SendTo Publish kMtu r t payload dst port).1.1 = true ↔
     (payloadSize payload ≤ kMtu)%N ∧
     (Publish kBrokerIncomingTopic (outgoing r payload dst port) t).1 = true).
Proof.
  unfold SendTo.
  destruct (N.ltb_spec kMtu (payloadSize payload)) as [Hbig|Hfit].
  - split; [done|]. split; [intros; lia|]. split; [intros; lia|].
    simpl. split; [done|]. intros [? _]. lia.
  - split; [intros; lia|].
    destruct (Publish _ _ t) as [[] t'] eqn:Hpub; simpl.
    + split; [done|]. split; [done|]. split; [done|]. by intros _.
    + split; [done|]. split; [done|]. split; [done|]. by intros [_ ?].
Qed.

End Send.

(** The first update of the battery test: the capacity drops by
    [consumption * factor * step / 3600]. *)
Example UpdateBattery_test_first_step :
  (capacity (UpdateBattery testRobot (moving (1 # 1000)))
   == 3500 - 1500 * (7 # 10) * ((1 # 1000) / 3600))%Q.
Proof. reflexivity. Qed.

(** Stopped next to the base, a full battery stays full. *)
Example UpdateBattery_recharge_full :
  (capacity (UpdateBattery testRobot
               {| booDistance := Some 1%Q; linearIsZero := true;
                  angularIsZero := true; maxStepSize := 1 # 1000 |})
   == 3500)%Q.
Proof. reflexivity. Qed.

Lemma SendTo_outcome_witness :
  SendTo (queueing true) 4 robot1 [] "hello" "192.168.2.2" 4100
  = (false, [], [payloadTooLargeLine 4 robot1 5])
  ∧ SendTo (queueing false) 4 robot1 [] "ping" "192.168.2.2" 4100
    = (false, [], [publishFailureLine robot1])
  ∧ SendTo (queueing true) 4 robot1 [] "ping" "192.168.2.2" 4100
    = (true, [outgoing robot1 "ping" "192.168.2.2" 4100], []).
Proof.
  split; [|split].
  - apply (SendTo_outcome (queueing true) 4 robot1 [] "hello" "192.168.2.2"
             4100). vm_compute. reflexivity.
  - apply (SendTo_outcome (queueing false) 4 robot1 [] "ping" "192.168.2.2"
             4100); [vm_compute; discriminate | reflexivity].
  - apply (SendTo_outcome (queueing true) 4 robot1 [] "ping" "192.168.2.2"
             4100); [vm_compute; discriminate | reflexivity].
Defined.

Lemma OnMsgReceived_recipient_gate_witness :
  OnMsgReceived robot1 (toRobot1 ["192.168.2.3"; "192.168.2.1"])
  = [UserCallback 7%nat "192.168.2.2" "192.168.2.1" 4100%N "hello"]
  ∧ UserCallback 7%nat "192.168.2.2" "192.168.2.1" 4100%N "hello"
    ∉ OnMsgReceived robot1 (toRobot1 ["192.168.2.3"]).
Proof.
  split.
  - apply (OnMsgReceived_recipient_gate robot1
             (toRobot1 ["192.168.2.3"; "192.168.2.1"])); [reflexivity|].
    vm_compute. apply list_elem_of_further, list_elem_of_here.
  - apply (OnMsgReceived_recipient_gate robot1 (toRobot1 ["192.168.2.3"])).
    intros Hin%list_elem_of_singleton. discriminate.
Defined.

Lemma OnMsgReceived_unknown_destination_witness :
  OnMsgReceived robot1 (toNobody ["192.168.2.1"])
  = [GzErr (notFoundLine robot1 "/swarm/192.168.2.9/4100")].
Proof.
  apply (OnMsgReceived_unknown_destination robot1 (toNobody ["192.168.2.1"])).
  reflexivity.
Defined.

Lemma OnMsgReceived_check_order_witness :
  OnMsgReceived robot1 (toNobody ["192.168.2.3"])
  = [GzErr (notFoundLine robot1 "/swarm/192.168.2.9/4100")]
  ∧ OnMsgReceived robot1 (toRobot1 ["192.168.2.3"]) = [].
Proof.
  split.
  - apply (OnMsgReceived_check_order robot1 (toNobody ["192.168.2.3"]));
      [|reflexivity].
    intros Hin%list_elem_of_singleton. discriminate.
  - apply (OnMsgReceived_check_order robot1 (toRobot1 ["192.168.2.3"])).
    + intros Hin%list_elem_of_singleton. discriminate.
    + exists 7%nat. reflexivity.
Defined.

Lemma UpdateBattery_capacity_bounds_witness :
  UpdateBattery boo (moving 1) = boo
  ∧ (0 <= capacity (UpdateBattery robot1 (moving 1)))%Q
  ∧ (capacity (UpdateBattery robot1 (moving 1))
     <= startCapacity (UpdateBattery robot1 (moving 1)))%Q.
Proof.
  split.
  - apply (UpdateBattery_capacity_bounds boo (moving 1)). reflexivity.
  - destruct (UpdateBattery_capacity_bounds robot1 (moving 1)) as [_ H].
    destruct H as (H0 & H1 & _); simpl; try lra; [discriminate|].
    split; assumption.
Defined.

End RobotPluginProofs.

(** ** The communication model *)

Module CommsModelProofs.
Import CommsModel Examples.

(** *** Scoring *)

Lemma aboveMin_spec lo x :
  aboveMin lo (Finite x) = true ↔ (lo < 0)%Q ∨ (lo <= x)%Q.
Proof.
  unfold aboveMin. by rewrite orb_true_iff, Qltb_lt, Qle_bool_iff.
Qed.

Lemma belowMax_spec hi x :
  belowMax hi (Finite x) = true ↔ (hi < 0)%Q ∨ (x <= hi)%Q.
Proof.
  unfold belowMax. by rewrite orb_true_iff, Qltb_lt, Qle_bool_iff.
Qed.

(** A pair satisfies a policy iff its effective distance is finite
    and within the bounds that are set. *)
Lemma satisfies_spec p dist clear :
  satisfies p dist clear = true ↔
  ∃ x, effectiveDistance p dist clear = Finite x
       ∧ ((distanceMin p < 0)%Q ∨ (distanceMin p <= x)%Q)
       ∧ ((distanceMax p < 0)%Q ∨ (x <= distanceMax p)%Q).
Proof.
  unfold satisfies. destruct (effectiveDistance p dist clear) as [x|].
  - rewrite andb_true_iff, aboveMin_spec, belowMax_spec. split.
    + intros [? ?]. by exists x.
    + intros (y & Hy & ? & ?). by injection Hy as <-.
  - split.
    + intros [_ ?]%andb_true_iff. discriminate.
    + intros (y & Hy & _). discriminate.
Qed.

Section Scoring.

Variable euclideanDistance : Position → Position → Q.


End Scoring.

(** *** The engine *)

Lemma lookup_imap_total {A B} (f : string → A → B) (m : gmap string A) a :
  map_imap (λ a x, Some (f a x)) m !! a = f a <$> m !! a.
Proof. rewrite map_lookup_imap. by destruct (m !! a). Qed.

Lemma dom_imap_total {A B} (f : string → A → B) (m : gmap string A) :
  dom (map_imap (λ a x, Some (f a x)) m) = dom m.
Proof.
  apply set_eq. intros a.
  by rewrite !elem_of_dom, lookup_imap_total, fmap_is_Some.
Qed.

(** The active nodes only depend on the roster and the outage flags. *)
Lemma activeNodes_ext (s1 s2 : gmap string Node) :
  (∀ a, inOutage <$> s1 !! a = inOutage <$> s2 !! a) →
  activeNodes s1 = activeNodes s2.
Proof.
  intros Hsame.
  assert (Hact : ∀ a, isActive s1 a = isActive s2 a).
  { intros a. unfold isActive. specialize (Hsame a).
    destruct (s1 !! a), (s2 !! a); simpl in *; congruence. }
  assert (Hdom : dom s1 = dom s2).
  { apply set_eq. intros a. rewrite !elem_of_dom.
    rewrite <- (fmap_is_Some inOutage (s1 !! a)).
    rewrite <- (fmap_is_Some inOutage (s2 !! a)). by rewrite Hsame. }
  unfold activeNodes. rewrite Hdom.
  apply list_filter_iff. intros a. by rewrite Hact.
Qed.

Lemma elem_of_activeNodes (s : gmap string Node) a :
  a ∈ activeNodes s ↔ ∃ n, s !! a = Some n ∧ inOutage n = false.
Proof.
  unfold activeNodes. rewrite list_elem_of_filter, elem_of_elements.
  rewrite elem_of_dom. unfold isActive. split.
  - intros [Hact [n Hn]]. rewrite Hn in Hact. exists n. split; [done|].
    by destruct (inOutage n).
  - intros (n & Hn & Hout). rewrite Hn, Hout. split; [done | by exists n].
Qed.

Section Engine.

Variable euclideanDistance : Position → Position → Q.
Variable kBroadcast : string.
Variable isMulticast : string → bool.
Variable inGroup : string → string → bool.
Variable config : Config.

Local Abbreviation Recompute := (Recompute euclideanDistance config).
Local Abbreviation Update := (Update euclideanDistance config).
Local Abbreviation run := (run euclideanDistance config).
Local Abbreviation UpdateNeighbors := (UpdateNeighbors euclideanDistance config).
Local Abbreviation UpdateNeighborList :=
  (UpdateNeighborList euclideanDistance config).
Local Abbreviation ComputeRecipients :=
  (ComputeRecipients euclideanDistance kBroadcast isMulticast inGroup config).
Local Abbreviation canReach := (canReach euclideanDistance config).

Lemma swarm_UpdateNeighbors w m a :
  swarm (UpdateNeighbors w m) !! a
  = (λ n, setNeighbors n (UpdateNeighborList w m a n)) <$> swarm m !! a.
Proof. simpl. apply lookup_imap_total. Qed.

Lemma swarm_Recompute w m a :
  swarm (Recompute w m) !! a
  = (λ n, setNeighbors n (UpdateNeighborList w (UpdateVisibility w m) a n))
      <$> swarm m !! a.
Proof. unfold CommsModel.Recompute. by rewrite swarm_UpdateNeighbors. Qed.

Lemma inOutage_Recompute w m a :
  inOutage <$> swarm (Recompute w m) !! a = inOutage <$> swarm m !! a.
Proof. rewrite swarm_Recompute. by destruct (swarm m !! a). Qed.

Lemma activeNodes_Recompute w m :
  activeNodes (swarm (Recompute w m)) = activeNodes (swarm m).
Proof. apply activeNodes_ext. intros a. apply inOutage_Recompute. Qed.

Lemma visibility_Recompute w m :
  visibility (Recompute w m) = visibility (UpdateVisibility w m).
Proof. done. Qed.

Lemma visibility_UpdateVisibility w m :
  visibility (UpdateVisibility w m)
  = queryAll w (unorderedPairs (activeNodes (swarm m))).
Proof. done. Qed.

(** Recomputing the visibility after a recomputation queries the same
    pairs. *)
Lemma UpdateVisibility_Recompute w m :
  visibility (UpdateVisibility w (Recompute w m))
  = visibility (UpdateVisibility w m).
Proof.
  rewrite (visibility_UpdateVisibility w (Recompute w m)).
  rewrite (visibility_UpdateVisibility w m).
  by rewrite activeNodes_Recompute.
Qed.

Lemma UpdateNeighborList_unfold w m a n :
  UpdateNeighborList w m a n
  = if inOutage n then ∅
    else list_to_set
           (filter (λ b, negb (String.eqb a b)
                         && isNeighbor euclideanDistance config w
                              (visibility m) a b)
                   (activeNodes (swarm m))).
Proof. done. Qed.

Lemma UpdateNeighborList_Recompute w m a n ns :
  UpdateNeighborList w (UpdateVisibility w (Recompute w m)) a
    (setNeighbors n ns)
  = UpdateNeighborList w (UpdateVisibility w m) a n.
Proof.
  rewrite !UpdateNeighborList_unfold.
  rewrite UpdateVisibility_Recompute.
  replace (swarm (UpdateVisibility w (Recompute w m)))
    with (swarm (Recompute w m)) by done.
  replace (swarm (UpdateVisibility w m)) with (swarm m) by done.
  by rewrite activeNodes_Recompute.
Qed.

(** C8: recomputing the link model a second time, with positions,
    occlusion results and outage states unchanged, gives every node the
    neighbor set of the first computation. *)
Theorem Recompute_idempotent (w : World) (m : Engine) (a : string) :
  neighbors <$> swarm (Recompute w (Recompute w m)) !! a
  = neighbors <$> swarm (Recompute w m) !! a.
Proof.
  rewrite (swarm_Recompute w (Recompute w m)), swarm_Recompute.
  destruct (swarm m !! a) as [n|]; [|done]. simpl.
  by rewrite UpdateNeighborList_Recompute.
Qed.

(** *** Outages *)

Lemma Recompute_outage_neighbors w m a n :
  swarm (Recompute w m) !! a = Some n → inOutage n = true →
  neighbors n = ∅.
Proof.
  rewrite swarm_Recompute. destruct (swarm m !! a) as [n0|]; [|done].
  intros [= <-]. simpl. intros Hout. rewrite UpdateNeighborList_unfold.
  by rewrite Hout.
Qed.

Lemma Recompute_neighbors_active w m a b nb :
  swarm (Recompute w m) !! b = Some nb → a ∈ neighbors nb →
  ∃ n, swarm (Recompute w m) !! a = Some n ∧ inOutage n = false.
Proof.
  rewrite (swarm_Recompute w m b).
  destruct (swarm m !! b) as [nb0|]; [|done].
  intros [= <-]. cbn [neighbors setNeighbors].
  rewrite UpdateNeighborList_unfold.
  destruct (inOutage nb0); [by intros ?%not_elem_of_empty|].
  rewrite elem_of_list_to_set, list_elem_of_filter.
  intros [_ (n0 & Hn0 & Hact)%elem_of_activeNodes].
  change (swarm (UpdateVisibility w m)) with (swarm m) in Hn0.
  rewrite swarm_Recompute, Hn0. simpl. eauto.
Qed.

Lemma canReach_no_neighbors_l w m d a b n :
  swarm m !! a = Some n → neighbors n = ∅ → canReach w m d a b = false.
Proof.
  intros Ha Hempty. unfold CommsModel.canReach. rewrite Ha.
  destruct (swarm m !! b); [|done]. rewrite Hempty.
  rewrite (bool_decide_eq_false_2 (b ∈ (∅ : gset string))); [done|].
  apply not_elem_of_empty.
Qed.

Lemma canReach_no_neighbors_r w m d a b n :
  swarm m !! b = Some n → neighbors n = ∅ → canReach w m d a b = false.
Proof.
  intros Hb Hempty. unfold CommsModel.canReach. rewrite Hb.
  destruct (swarm m !! a); [|done]. rewrite Hempty.
  rewrite (bool_decide_eq_false_2 (a ∈ (∅ : gset string)));
    [by rewrite andb_false_r | apply not_elem_of_empty].
Qed.

Lemma filter_none {A} (P : A → Prop) `{!∀ x, Decision (P x)} (l : list A) :
  (∀ x, ¬ P x) → filter P l = [].
Proof.
  intros Hno. induction l as [|x l IH]; [done|].
  by rewrite filter_cons_False.
Qed.

(** A node without neighbors sends to nobody. *)
Lemma ComputeRecipients_no_neighbors_src w m d a n dst :
  swarm m !! a = Some n → neighbors n = ∅ →
  ComputeRecipients w m d a dst = [].
Proof.
  intros Ha Hempty. unfold CommsModel.ComputeRecipients.
  assert (Hno : ∀ b, canReach w m d a b = false).
  { intros b. by eapply canReach_no_neighbors_l. }
  destruct (String.eqb dst kBroadcast); [|destruct (isMulticast dst)].
  - apply filter_none. intros b. rewrite Hno, andb_false_r. tauto.
  - apply filter_none. intros b. rewrite Hno, andb_false_r. tauto.
  - by rewrite Hno.
Qed.

(** A node without neighbors is nobody's recipient. *)
Lemma ComputeRecipients_no_neighbors_dst w m d a n src dst :
  swarm m !! a = Some n → neighbors n = ∅ →
  a ∉ ComputeRecipients w m d src dst.
Proof.
  intros Ha Hempty. unfold CommsModel.ComputeRecipients.
  assert (Hno : canReach w m d src a = false).
  { by eapply canReach_no_neighbors_r. }
  destruct (String.eqb dst kBroadcast); [|destruct (isMulticast dst)].
  - rewrite list_elem_of_filter, Hno, andb_false_r. tauto.
  - rewrite list_elem_of_filter, Hno, andb_false_r. tauto.
  - destruct (canReach w m d src dst) eqn:Hdst; [|apply not_elem_of_nil].
    intros ->%list_elem_of_singleton. congruence.
Qed.

(** C2: after a tick, a node in an outage has an empty neighbor set and
    is in no node's neighbor set; whatever it sends has no recipient, it
    is a recipient of no message, and no datagram carrying computed
    recipients runs a callback of its plugin. *)
Theorem Update_outage_isolated (w : World) (draws : OutageDraws) (m : Engine)
    (a : string) (n : Node) :
  swarm (Update w draws m) !! a = Some n → inOutage n = true →
  neighbors n = ∅
  ∧ (∀ b nb, swarm (Update w draws m) !! b = Some nb → a ∉ neighbors nb)
  ∧ (∀ d dst, ComputeRecipients w (Update w draws m) d a dst = [])
  ∧ (∀ d src dst, a ∉ ComputeRecipients w (Update w draws m) d src dst)
  ∧ (∀ Callback (r : RobotPlugin.State Callback) msg d src dst,
       RobotPlugin.Host r = a →
       RobotPlugin.recipients msg
       = ComputeRecipients w (Update w draws m) d src dst →
       ∀ cb s t port payload,
         RobotPlugin.UserCallback cb s t port payload
         ∉ RobotPlugin.OnMsgReceived r msg).
Proof.
  unfold CommsModel.Update. intros Ha Hout.
  pose proof (Recompute_outage_neighbors _ _ _ _ Ha Hout) as Hempty.
  split; [done|]. split.
  { intros b nb Hb Hin.
    destruct (Recompute_neighbors_active _ _ _ _ _ Hb Hin) as (n' & Hn' & Hact).
    congruence. }
  split.
  { intros d dst. by eapply ComputeRecipients_no_neighbors_src. }
  split.
  { intros d src dst. by eapply ComputeRecipients_no_neighbors_dst. }
  intros Callback r msg d src dst Hhost Hrs.
  apply RobotPluginProofs.OnMsgReceived_not_recipient.
  rewrite Hhost, Hrs. by eapply ComputeRecipients_no_neighbors_dst.
Qed.

Lemma uniform_ge lo hi u :
  (lo <= hi)%Q → (0 <= u)%Q → (lo <= uniform lo hi u)%Q.
Proof.
  intros Hle Hu. unfold uniform.
  assert (0 <= u * (hi - lo))%Q by (apply Qmult_le_0_compat; lra). lra.
Qed.

(** One evaluation of the state machine keeps the invariant, when the
    drawn duration is positive. *)
Lemma outageStep_invariant c now dt uEnter uDuration last n :
  (0 < commsOutageDurationMin c)%Q →
  (commsOutageDurationMin c <= commsOutageDurationMax c)%Q →
  (0 <= uDuration)%Q →
  nodeInvariant last n →
  nodeInvariant now (outageStep c now dt uEnter uDuration n).
Proof.
  intros Hmin Hmax Hu Hinv. unfold outageStep.
  destruct (inOutage n) eqn:Hout.
  - destruct (Hinv Hout) as (t & Ht & _). rewrite Ht.
    destruct (Qle_bool t now) eqn:Hend; [intros ?; discriminate|].
    intros _. exists t. split; [done|].
    apply Qnot_le_lt. by rewrite <- Qle_bool_iff, Hend.
  - destruct (Qltb uEnter _); [|intros ?; congruence].
    intros _. cbn [outageEndTime]. unfold drawOutageEnd.
    rewrite (proj2 (Qltb_ge _ _)) by lra.
    rewrite (proj2 (Qltb_ge _ _)) by lra. simpl.
    eexists. split; [done|].
    pose proof (uniform_ge _ _ _ Hmax Hu). lra.
Qed.

(** A node in an outage with an end time leaves it exactly when the
    clock has reached that time. *)
Lemma outageStep_exit c now dt uEnter uDuration n t :
  inOutage n = true → outageEndTime n = Some t →
  inOutage (outageStep c now dt uEnter uDuration n) = false ↔ (t <= now)%Q.
Proof.
  intros Hout Ht. unfold outageStep. rewrite Hout, Ht.
  rewrite <- Qle_bool_iff.
  destruct (Qle_bool t now); simpl; [done|]. rewrite Hout. split; congruence.
Qed.

Lemma swarm_Update w draws m a :
  swarm (Update w draws m) !! a
  = (λ n, let n' := outageStep config (simTime w)
                      (simTime w - lastUpdateTime m)
                      (enterSample draws a) (durationSample draws a) n in
          setNeighbors n'
            (UpdateNeighborList w
               (UpdateVisibility w
                  (UpdateOutages config w draws m)) a n'))
      <$> swarm m !! a.
Proof.
  unfold CommsModel.Update. rewrite swarm_Recompute. simpl swarm.
  rewrite lookup_imap_total. by destruct (swarm m !! a).
Qed.

(** One tick keeps the invariant. *)
Lemma Update_keeps_invariant w draws m :
  (0 < commsOutageDurationMin config)%Q →
  (commsOutageDurationMin config <= commsOutageDurationMax config)%Q →
  (∀ a, (0 <= durationSample draws a)%Q) →
  outageInvariant m → outageInvariant (Update w draws m).
Proof.
  intros Hmin Hmax Hu Hinv a n'. rewrite swarm_Update.
  destruct (swarm m !! a) as [n|] eqn:Hn; [|done].
  intros [= <-]. change (lastUpdateTime (Update w draws m)) with (simTime w).
  exact (outageStep_invariant config (simTime w)
           (simTime w - lastUpdateTime m) (enterSample draws a)
           (durationSample draws a) (lastUpdateTime m) n
           Hmin Hmax (Hu a) (Hinv a n Hn)).
Qed.

(** C7, amended: when the configured outage duration is positive
    ([0 < commsOutageDurationMin <= commsOutageDurationMax]), at every
    point of a run that starts from a state where it holds, a node in an
    outage has an end time later than the last update; and a node in an
    outage is active after the next tick exactly when the clock has
    reached its end time. *)
Theorem run_outage_invariant (ticks : list (World * OutageDraws))
    (m : Engine) :
  (0 < commsOutageDurationMin config)%Q →
  (commsOutageDurationMin config <= commsOutageDurationMax config)%Q →
  Forall (λ tick, ∀ a, (0 <= durationSample tick.2 a)%Q) ticks →
  outageInvariant m →
  outageInvariant (run ticks m)
  ∧ (∀ w draws a n t, swarm (run ticks m) !! a = Some n →
       inOutage n = true → outageEndTime n = Some t →
       ∃ n', swarm (Update w draws (run ticks m)) !! a = Some n'
             ∧ (inOutage n' = false ↔ (t <= simTime w)%Q)).
Proof.
  intros Hmin Hmax Hticks Hinv. split.
  - revert m Hinv. induction Hticks as [|tick ticks Hu _ IH]; intros m Hinv.
    + exact Hinv.
    + simpl. apply IH. by apply Update_keeps_invariant.
  - intros w draws a n t Hn Hout Ht. rewrite swarm_Update, Hn. simpl.
    eexists. split; [done|]. simpl. by apply outageStep_exit.
Qed.

End Engine.

(** *** Concrete runs *)

(** Scenarios of section 8 of the specification. Two nodes one metre
    apart, ranges of ten metres, no obstruction, no drop: they are
    neighbors and a unicast is delivered. *)
Example scenario_unicast_delivered :
  elements
    (default ∅
       (neighbors <$>
          swarm (Update alongX (tenMetres 0) (openField 1)
                   (constantDraws (1 # 2)) bothActive) !! "192.168.2.1"))
  = ["192.168.2.2"]
  ∧ ComputeRecipients alongX "broadcast" (λ _, false) (λ _ _, false)
      (tenMetres 0) (openField 1)
      (Update alongX (tenMetres 0) (openField 1)
         (constantDraws (1 # 2)) bothActive)
      (constantDrops 0) "192.168.2.1" "192.168.2.2"
    = ["192.168.2.2"].
Proof. split; reflexivity. Qed.

(** The same nodes with one obstruction and an infinite comms penalty:
    still neighbors, but no delivery. *)
Example scenario_infinite_penalty :
  elements
    (default ∅
       (neighbors <$>
          swarm (Update alongX (tenMetres (-1)) (forest 1)
                   (constantDraws (1 # 2)) bothActive) !! "192.168.2.1"))
  = ["192.168.2.2"]
  ∧ ComputeRecipients alongX "broadcast" (λ _, false) (λ _ _, false)
      (tenMetres (-1)) (forest 1)
      (Update alongX (tenMetres (-1)) (forest 1)
         (constantDraws (1 # 2)) bothActive)
      (constantDrops 0) "192.168.2.1" "broadcast"
    = [].
Proof. split; reflexivity. Qed.

(** With no comms range limit at all, trees under an infinite comms
    penalty still block the delivery between two neighbors. *)
Example scenario_blocked_without_limit :
  elements
    (default ∅
       (neighbors <$>
          swarm (Update alongX throughTrees (forest 1)
                   (constantDraws (1 # 2)) bothActive) !! "192.168.2.1"))
  = ["192.168.2.2"]
  ∧ ComputeRecipients alongX "broadcast" (λ _, false) (λ _ _, false)
      throughTrees (forest 1)
      (Update alongX throughTrees (forest 1)
         (constantDraws (1 # 2)) bothActive)
      (constantDrops 0) "192.168.2.1" "192.168.2.2"
    = [].
Proof. split; reflexivity. Qed.


Lemma Update_outage_isolated_witness :
  neighbors (outagedNode 10) = ∅
  ∧ ComputeRecipients alongX "broadcast" (λ _, false) (λ _ _, false)
      (withOutages 0 1 2) (openField 1)
      (Update alongX (withOutages 0 1 2) (openField 1)
         (constantDraws (1 # 2)) oneOutaged)
      (constantDrops 0)
      "192.168.2.2" "192.168.2.1" = [].
Proof.
  split.
  - apply (Update_outage_isolated alongX "broadcast" (λ _, false)
             (λ _ _, false) (withOutages 0 1 2) (openField 1)
             (constantDraws (1 # 2)) oneOutaged "192.168.2.2"
             (outagedNode 10)); reflexivity.
  - apply (Update_outage_isolated alongX "broadcast" (λ _, false)
             (λ _ _, false) (withOutages 0 1 2) (openField 1)
             (constantDraws (1 # 2)) oneOutaged "192.168.2.2"
             (outagedNode 10)); reflexivity.
Defined.

Lemma oneOutaged_invariant : outageInvariant oneOutaged.
Proof.
  intros a n. unfold oneOutaged. simpl swarm.
  intros [[_ <-]|[_ [_ <-]%lookup_singleton_Some]]%lookup_insert_Some.
  - intros ?. discriminate.
  - intros _. exists 10%Q. split; reflexivity.
Defined.

Lemma run_outage_invariant_witness :
  outageInvariant
    (run alongX (withOutages 1 1 2)
       [(openField 1, constantDraws (1 # 2));
        (openField 2, constantDraws (1 # 2))] oneOutaged).
Proof.
  apply (run_outage_invariant alongX (withOutages 1 1 2)
           [(openField 1, constantDraws (1 # 2));
            (openField 2, constantDraws (1 # 2))] oneOutaged).
  - reflexivity.
  - vm_compute. discriminate.
  - repeat constructor; vm_compute; discriminate.
  - apply oneOutaged_invariant.
Defined.

(** C7 as stated fails. With the default bounds on the outage duration
    (negative: no limit) a node that enters an outage has no end time;
    with a duration of zero its end time is the time of the update, not
    later. In both runs every node is active before the tick. *)
Lemma Update_outage_breaks_invariant :
  outageInvariant bothActive
  ∧ ¬ outageInvariant
        (Update alongX (withOutages 1 (-1) (-1)) (openField 1)
           (constantDraws (1 # 2)) bothActive)
  ∧ ¬ outageInvariant
        (Update alongX (withOutages 1 0 0) (openField 1)
           (constantDraws (1 # 2)) bothActive).
Proof.
  split; [|split].
  - intros a n. unfold bothActive. simpl swarm.
    intros [[_ <-]|[_ [_ <-]%lookup_singleton_Some]]%lookup_insert_Some;
      intros ?; discriminate.
  - intros Hinv.
    destruct (Hinv "192.168.2.2"
                {| inOutage := true; outageEndTime := None; neighbors := ∅ |})
      as (t & Ht & _); [reflexivity | reflexivity | discriminate].
  - intros Hinv.
    destruct (Hinv "192.168.2.2"
                {| inOutage := true; outageEndTime := Some (2 # 2);
                   neighbors := ∅ |})
      as (t & Ht & Hlt); [reflexivity | reflexivity |].
    injection Ht as <-. vm_compute in Hlt. discriminate.
Qed.

End CommsModelProofs.

(** ** The triangle of the terrain under the vehicle *)

Module TerrainProofs.
Import Vector Terrain.

Lemma inject_Z_succ z : (inject_Z (z + 1) == inject_Z z + 1)%Q.
Proof. by rewrite inject_Z_plus. Qed.

Lemma inject_Z_pred z : (inject_Z (z - 1) == inject_Z z - 1)%Q.
Proof. unfold Z.sub. by rewrite inject_Z_plus. Qed.

(** Rounding moves a number by at most one half. *)
Lemma roundZ_bounds x :
  (inject_Z (roundZ x) - (1 # 2) <= x)%Q ∧ (x <= inject_Z (roundZ x) + (1 # 2))%Q.
Proof.
  unfold roundZ. destruct (Qle_bool 0 x).
  - pose proof (Qfloor_le (x + (1 # 2))) as Hlo.
    pose proof (Qlt_floor (x + (1 # 2))) as Hhi.
    rewrite inject_Z_succ in Hhi. split; lra.
  - pose proof (Qle_ceiling (x - (1 # 2))) as Hhi.
    pose proof (Qceiling_lt (x - (1 # 2))) as Hlo.
    rewrite inject_Z_pred in Hlo. split; lra.
Qed.

Lemma Zle_of_Qlt a b : (inject_Z a < inject_Z b + 1)%Q → (a <= b)%Z.
Proof.
  intros H. rewrite <- inject_Z_succ, <- Zlt_Qlt in H. lia.
Qed.

(** An integer strictly within one of a number is its floor or its
    ceiling. *)
Lemma near_floor_or_ceiling (z : Z) x :
  (inject_Z z - 1 < x)%Q → (x < inject_Z z + 1)%Q →
  z = Qfloor x ∨ z = Qceiling x.
Proof.
  intros Hlo Hhi.
  pose proof (Qfloor_le x) as Hf. pose proof (Qlt_floor x) as Hf'.
  pose proof (Qle_ceiling x) as Hc. pose proof (Qceiling_lt x) as Hc'.
  rewrite inject_Z_succ in Hf'. rewrite inject_Z_pred in Hc'.
  assert (Hzf : (Qfloor x <= z)%Z) by (apply Zle_of_Qlt; lra).
  assert (Hzc : (z <= Qceiling x)%Z) by (apply Zle_of_Qlt; lra).
  assert (Hcf : (Qceiling x <= Qfloor x + 1)%Z).
  { apply Zle_of_Qlt. rewrite inject_Z_succ. lra. }
  lia.
Qed.

Lemma roundZ_floor_or_ceiling x : roundZ x = Qfloor x ∨ roundZ x = Qceiling x.
Proof.
  destruct (roundZ_bounds x). apply near_floor_or_ceiling; lra.
Qed.

Lemma toInt_inject_Z z : toInt (inject_Z z) = z.
Proof.
  unfold toInt. destruct (Qle_bool 0 (inject_Z z));
    [apply Qfloor_Z | apply Qceiling_Z].
Qed.

Section Vertices.

Variable Distance : Vector3d → Vector3d → Q.

Local Abbreviation vertices := (vertices Distance).

Ltac split_vertices p :=
  let Hx1 := fresh "Hx1" in let Hx2 := fresh "Hx2" in
  let Hy1 := fresh "Hy1" in let Hy2 := fresh "Hy2" in
  let Hcx := fresh "Hcx" in let Hfx := fresh "Hfx" in
  let Hcy := fresh "Hcy" in let Hfy := fresh "Hfy" in
  let Hxc := fresh "Hxc" in let Hxf := fresh "Hxf" in
  let Hyc := fresh "Hyc" in let Hyf := fresh "Hyf" in
  destruct (roundZ_bounds (vX p)) as [Hx1 Hx2];
  destruct (roundZ_bounds (vY p)) as [Hy1 Hy2];
  pose proof (Qle_ceiling (vX p)) as Hcx; pose proof (Qfloor_le (vX p)) as Hfx;
  pose proof (Qle_ceiling (vY p)) as Hcy; pose proof (Qfloor_le (vY p)) as Hfy;
  pose proof (roundZ_floor_or_ceiling (vX p));
  pose proof (roundZ_floor_or_ceiling (vY p));
  unfold Terrain.vertices, round, ceil, floor; cbn [vX vY vZ vec];
  rewrite !toInt_inject_Z;
  destruct (Z.eqb_spec (roundZ (vX p)) (Qceiling (vX p))) as [Hxc|Hxc];
  destruct (Z.eqb_spec (roundZ (vY p)) (Qceiling (vY p))) as [Hyc|Hyc];
  destruct (Z.eqb_spec (roundZ (vX p)) (Qfloor (vX p))) as [Hxf|Hxf];
  destruct (Z.eqb_spec (roundZ (vY p)) (Qfloor (vY p))) as [Hyf|Hyf];
  try (exfalso; tauto);
  try rewrite <- Hxc in Hcx; try rewrite <- Hyc in Hcy;
  try rewrite <- Hxf in Hfx; try rewrite <- Hyf in Hfy;
  cbn [andb];
  destruct (Z.rem (roundZ (vY p)) 2 =? 0)%Z;
  cbn [fst snd];
  repeat match goal with
         | |- context [Qltb (Distance ?a ?b) (Distance ?c ?d)] =>
             destruct (Qltb (Distance a b) (Distance c d))
         end;
  cbn [fst snd].

(** The first vertex is the grid point nearest to the robot. *)
Lemma vertices_first (p : Vector3d) :
  (vertices p).1.1 = vec (round (vX p)) (round (vY p)) 0.
Proof.
  unfold Terrain.vertices.
  repeat match goal with
         | |- context [if ?b then _ else _] => destruct b
         end; reflexivity.
Qed.

Ltac corner_leaf p i j :=
  exists i, j; unfold cornerOf, setX, setY, vec; cbn [vX vY vZ];
  rewrite ?inject_Z_pred; repeat split; lra.

(** The three vertices are corners of one grid cell, and the robot is
    in that cell. *)
Lemma vertices_cell (p : Vector3d) :
  ∃ i j : Z,
    (inject_Z i <= vX p)%Q ∧ (vX p <= inject_Z i + 1)%Q
    ∧ (inject_Z j <= vY p)%Q ∧ (vY p <= inject_Z j + 1)%Q
    ∧ cornerOf i j (vertices p).1.1
    ∧ cornerOf i j (vertices p).1.2
    ∧ cornerOf i j (vertices p).2.
Proof.
  split_vertices p;
    first [ corner_leaf p (roundZ (vX p) - 1)%Z (roundZ (vY p) - 1)%Z
          | corner_leaf p (roundZ (vX p)) (roundZ (vY p) - 1)%Z
          | corner_leaf p (roundZ (vX p)) (roundZ (vY p))
          | corner_leaf p (roundZ (vX p) - 1)%Z (roundZ (vY p)) ].
Qed.

(** The three vertices span half a cell. *)
Lemma vertices_area (p : Vector3d) :
  (cross2 (minus (vertices p).1.2 (vertices p).1.1)
          (minus (vertices p).2 (vertices p).1.1) == 1)%Q
  ∨ (cross2 (minus (vertices p).1.2 (vertices p).1.1)
            (minus (vertices p).2 (vertices p).1.1) == -1)%Q.
Proof.
  split_vertices p;
    unfold cross2, minus, setX, setY, vec; cbn [vX vY vZ];
    first [left; ring | right; ring].
Qed.

(** X1: whatever distances the library returns, the three vertices
    [TerrainLookup] selects around a position that fits the grid are
    corners of the one cell of the grid the position lies in, the
    first of them is the grid point nearest to the position, and they
    span half the cell: they are never on one line. *)
Theorem vertices_triangle (p : Vector3d) :
  fitsInt (vX p) → fitsInt (vY p) →
  (vertices p).1.1 = vec (round (vX p)) (round (vY p)) 0
  ∧ (∃ i j : Z,
       (inject_Z i <= vX p)%Q ∧ (vX p <= inject_Z i + 1)%Q
       ∧ (inject_Z j <= vY p)%Q ∧ (vY p <= inject_Z j + 1)%Q
       ∧ cornerOf i j (vertices p).1.1
       ∧ cornerOf i j (vertices p).1.2
       ∧ cornerOf i j (vertices p).2)
  ∧ ((cross2 (minus (vertices p).1.2 (vertices p).1.1)
             (minus (vertices p).2 (vertices p).1.1) == 1)%Q
     ∨ (cross2 (minus (vertices p).1.2 (vertices p).1.1)
               (minus (vertices p).2 (vertices p).1.1) == -1)%Q).
Proof.
  intros _ _. split; [apply vertices_first|].
  split; [apply vertices_cell | apply vertices_area].
Qed.

End Vertices.

End TerrainProofs.

(** ** Motion, sensors and the update loop *)

Module VehicleProofs.
Import Vector Terrain RobotPlugin Vehicle.

Lemma std_max_ge_r a b : (b <= std_max a b)%Q.
Proof.
  unfold std_max. destruct (Qltb a b) eqn:E; [lra|].
  by apply Qltb_ge in E.
Qed.

Lemma clamp_bounds v lo hi :
  (lo <= hi)%Q → (lo <= clamp v lo hi)%Q ∧ (clamp v lo hi <= hi)%Q.
Proof.
  intros Hle. unfold clamp. split; [apply std_max_ge_r|].
  apply std_max_lub; [apply std_min_le_r | done].
Qed.

(** The divisor of the velocity clamp: the limit factor, or 1 when the
    factor is under 1. *)
Lemma clamp_factor f :
  (Qltb f 1 = true ∧ clamp f 1 f = 1%Q)
  ∨ (Qltb f 1 = false ∧ clamp f 1 f = f).
Proof.
  unfold clamp, std_max, std_min.
  rewrite (proj2 (Qltb_ge f f)) by lra.
  destruct (Qltb f 1); [by left | by right].
Qed.

(** A vector divided by its clamped limit factor is left as it is when
    it is within the limit, and is divided by the factor otherwise. *)
Lemma limited v len limit :
  (0 < limit)%Q →
  ((len <= limit)%Q →
   veq (divide v (clamp (len / limit) 1 (len / limit))) v)
  ∧ ((limit < len)%Q →
     divide v (clamp (len / limit) 1 (len / limit))
     = divide v (len / limit)).
Proof.
  intros Hlimit.
  assert (Hf : (len == len / limit * limit)%Q) by (field; lra).
  destruct (clamp_factor (len / limit)) as [[Hlt ->]|[Hge ->]].
  - apply Qltb_lt in Hlt. split.
    + intros _. unfold veq, divide. cbn. repeat split; field.
    + intros Hover. exfalso.
      assert (len / limit * limit <= 1 * limit)%Q
        by (apply Qmult_le_compat_r; lra).
      lra.
  - apply Qltb_ge in Hge. split; [|done].
    intros Hin.
    assert (Hone : (len / limit == 1)%Q).
    { apply Qle_antisym; [|lra]. apply Qle_shift_div_r; lra. }
    unfold veq, divide. cbn. rewrite Hone. repeat split; field.
Qed.

Lemma IGN_DTOR_pos d : (0 < d)%Q → (0 < IGN_DTOR d)%Q.
Proof.
  intros Hd. unfold IGN_DTOR, IGN_PI.
  apply Qlt_shift_div_l; [lra|].
  assert (0 < d * (884279719003555 # 281474976710656))%Q; [|lra].
  apply Qmult_lt_0_compat; [done|reflexivity].
Qed.

Section Motion.

Context {Callback Quaternion : Type}.
Variable RotateVector : Quaternion → Vector3d → Vector3d.
Variable Euler : Quaternion → Vector3d.
Variable Length : Vector3d → Q.
Variable equal : Q → Q → bool.
Variable tan : Q → Q.

Implicit Types (r : @Robot Callback Quaternion) (m : @Model Quaternion).

Lemma charged r :
  (0 < capacity (plugin r))%Q → Qle_bool (capacity (plugin r)) 0 = false.
Proof.
  intros Hc. apply not_true_iff_false. rewrite Qle_bool_iff. lra.
Qed.

(** X4: with a charged battery, a requested linear velocity (the
    target rotated into the world frame, of which a ground vehicle and
    a fixed wing keep the forward component only) whose length is
    within the maximum of the type of vehicle is set on the model as
    it is; a longer one is set divided by the ratio of its length to
    the maximum; the pose and the angular velocity of the model are
    not touched. This holds whatever [Length] returns. *)
Theorem UpdateLinearVelocity_limit r m :
  (0 < capacity (plugin r))%Q → (0 < maxLinearVel r)%Q →
  ((Length (requestedLinearVel RotateVector r m) <= maxLinearVel r)%Q →
   veq (linearVel (UpdateLinearVelocity RotateVector Length r m))
     (requestedLinearVel RotateVector r m))
  ∧ ((maxLinearVel r < Length (requestedLinearVel RotateVector r m))%Q →
     linearVel (UpdateLinearVelocity RotateVector Length r m)
     = divide (requestedLinearVel RotateVector r m)
         (Length (requestedLinearVel RotateVector r m) / maxLinearVel r))
  ∧ angularVel (UpdateLinearVelocity RotateVector Length r m) = angularVel m
  ∧ worldPose (UpdateLinearVelocity RotateVector Length r m) = worldPose m.
Proof.
  intros Hc Hmax. unfold UpdateLinearVelocity, maxLinearVel,
    requestedLinearVel in *.
  rewrite (charged r Hc).
  destruct (type r); cbn [linearVel angularVel worldPose SetLinearVel];
    (split; [by apply limited|]);
    (split; [by apply limited|done]).
Qed.

(** X5: with a charged battery, the angular velocity set on the model
    is limited by the type of vehicle. A ground vehicle gets its yaw
    command, clamped to its maximum, as the first component and 0 as
    the other two. A rotorcraft gets its target as it is when the
    length of the target is within the maximum, and divided by the
    ratio of that length to the maximum otherwise. A fixed wing rolls
    within 5 degrees per second and yaws within 10, pitches at its
    pitch command clamped to its maximum, and neither rolls nor yaws
    when its forward speed equals 0. *)
Theorem UpdateAngularVelocity_limits r m :
  (0 < capacity (plugin r))%Q →
  (0 <= groundMaxAngularVel (limits r))%Q →
  (0 < rotorMaxAngularVel (limits r))%Q →
  (0 <= fixedMaxAngularVel (limits r))%Q →
  match type r with
  | GROUND =>
      angularVel (UpdateAngularVelocity Euler Length equal tan r m)
      = vec (clamp (vZ (targetAngVel r))
               (- groundMaxAngularVel (limits r))
               (groundMaxAngularVel (limits r))) 0 0
      ∧ (- groundMaxAngularVel (limits r)
         <= vX (angularVel (UpdateAngularVelocity Euler Length equal tan r m)))%Q
      ∧ (vX (angularVel (UpdateAngularVelocity Euler Length equal tan r m))
         <= groundMaxAngularVel (limits r))%Q
  | ROTOR =>
      ((Length (targetAngVel r) <= rotorMaxAngularVel (limits r))%Q →
       veq (angularVel (UpdateAngularVelocity Euler Length equal tan r m))
         (targetAngVel r))
      ∧ ((rotorMaxAngularVel (limits r) < Length (targetAngVel r))%Q →
         angularVel (UpdateAngularVelocity Euler Length equal tan r m)
         = divide (targetAngVel r)
             (Length (targetAngVel r) / rotorMaxAngularVel (limits r)))
  | FIXED_WING =>
      (Qabs (vX (angularVel (UpdateAngularVelocity Euler Length equal tan r m)))
       <= IGN_DTOR 5)%Q
      ∧ vY (angularVel (UpdateAngularVelocity Euler Length equal tan r m))
        = clamp (vY (targetAngVel r))
            (- fixedMaxAngularVel (limits r)) (fixedMaxAngularVel (limits r))
      ∧ (Qabs (vY (angularVel (UpdateAngularVelocity Euler Length equal tan r m)))
         <= fixedMaxAngularVel (limits r))%Q
      ∧ (Qabs (vZ (angularVel (UpdateAngularVelocity Euler Length equal tan r m)))
         <= IGN_DTOR 10)%Q
      ∧ (equal (vX (linearVelocityNoNoise (observed r))) 0 = true →
         vX (angularVel (UpdateAngularVelocity Euler Length equal tan r m)) = 0%Q
         ∧ vZ (angularVel (UpdateAngularVelocity Euler Length equal tan r m))
           = 0%Q)
  end.
Proof.
  intros Hc Hg Hr Hf. unfold UpdateAngularVelocity. rewrite (charged r Hc).
  pose proof (IGN_DTOR_pos 5 eq_refl) as H5.
  pose proof (IGN_DTOR_pos 10 eq_refl) as H10.
  destruct (type r).
  - cbn [angularVel SetAngularVel vX vY vZ vec].
    destruct (clamp_bounds (vZ (targetAngVel r))
                (- groundMaxAngularVel (limits r))
                (groundMaxAngularVel (limits r))) as [Hlo Hhi]; [lra|].
    done.
  - cbn [angularVel SetAngularVel]. by apply limited.
  - destruct (clamp_bounds (vY (targetAngVel r))
                (- fixedMaxAngularVel (limits r))
                (fixedMaxAngularVel (limits r))) as [Hlo Hhi]; [lra|].
    destruct (equal (vX (linearVelocityNoNoise (observed r))) 0);
      cbn [negb angularVel SetAngularVel vX vY vZ vec].
    + split; [apply Qabs_Qle_condition; split; simpl; lra|].
      split; [done|].
      split; [by apply Qabs_Qle_condition|].
      split; [apply Qabs_Qle_condition; split; simpl; lra|done].
    + destruct (clamp_bounds (vX (targetAngVel r)) (- IGN_DTOR 5)
                  (IGN_DTOR 5)) as [? ?]; [lra|].
      destruct (clamp_bounds
                  (-(981 # 100) * tan (vX (Euler (observedOrient (observed r))))
                   / vX (linearVelocityNoNoise (observed r)))
                  (- IGN_DTOR 10) (IGN_DTOR 10)) as [? ?]; [lra|].
      split; [by apply Qabs_Qle_condition|].
      split; [done|].
      split; [by apply Qabs_Qle_condition|].
      split; [by apply Qabs_Qle_condition|]. intros ?. discriminate.
Qed.

End Motion.

Section Sensors.

Context {Callback Quaternion : Type}.

Implicit Types (o : @Observations Quaternion) (s : @Readings Quaternion).

(** X6: for a yaw of the model within half a turn either way and a
    noise of at most one radian, the bearing observed lies between 0
    and [TwoPi], both included. *)
Theorem UpdateSensors_bearing o s :
  (- IGN_PI <= yaw s)%Q → (yaw s <= IGN_PI)%Q →
  (Qabs (bearingNoise s) <= 1)%Q →
  (0 <= observedBearing (UpdateSensors o s))%Q
  ∧ (observedBearing (UpdateSensors o s) <= TwoPi)%Q.
Proof.
  intros Hlo Hhi [Hn1 Hn2]%Qabs_Qle_condition.
  assert (Hb : observedBearing (UpdateSensors o s)
               = compass (yaw s + bearingNoise s)).
  { unfold UpdateSensors. destruct (gps s) as [[[? ?] ?]|];
      destruct (imu s) as [[? ?]|]; reflexivity. }
  rewrite Hb. unfold compass.
  assert (Hhalf : (HalfPi == IGN_PI * (1 # 2))%Q) by reflexivity.
  assert (Htwo : (TwoPi == IGN_PI * 2)%Q) by reflexivity.
  assert (Hpi : (3 <= IGN_PI)%Q) by (vm_compute; discriminate).
  destruct (Qltb (HalfPi - (yaw s + bearingNoise s)) 0) eqn:E;
    [apply Qltb_lt in E | apply Qltb_ge in E]; split; lra.
Qed.

(** The loop over the camera image leaves the names it does not meet
    alone. *)
Lemma seeObjects_other (models : list (string * Pose3d))
    (objects : gmap string (@Pose3d Quaternion)) name :
  name ∉ models.*1 → seeObjects models objects !! name = objects !! name.
Proof.
  revert objects. induction models as [|[n p] models IH]; intros objects Hnot;
    [done|].
  simpl in *. apply not_elem_of_cons in Hnot as [Hne Hnot].
  rewrite IH by done.
  destruct (String.eqb n "ground_plane"); [done|]. simpl.
  by rewrite lookup_insert_ne.
Qed.

Lemma seeObjects_ground_plane (models : list (string * Pose3d))
    (objects : gmap string (@Pose3d Quaternion)) :
  seeObjects models objects !! "ground_plane" = objects !! "ground_plane".
Proof.
  revert objects. induction models as [|[n p] models IH]; intros objects;
    [done|].
  simpl. rewrite IH. destruct (String.eqb n "ground_plane") eqn:E; [done|].
  simpl. apply eqb_false_iff in E. by rewrite lookup_insert_ne.
Qed.

Lemma seeObjects_last (l1 l2 : list (string * Pose3d))
    (objects : gmap string (@Pose3d Quaternion)) name p :
  name ≠ "ground_plane" → name ∉ l2.*1 →
  seeObjects (l1 ++ (name, p) :: l2) objects !! name = Some p.
Proof.
  intros Hgp Hnot. revert objects.
  induction l1 as [|[n q] l1 IH]; intros objects; simpl.
  - rewrite seeObjects_other by done.
    rewrite (proj2 (eqb_false_iff name "ground_plane") Hgp). simpl.
    apply lookup_insert_eq.
  - apply IH.
Qed.

Lemma seeObjects_seen (models : list (string * Pose3d))
    (objects : gmap string (@Pose3d Quaternion)) name :
  is_Some (seeObjects models objects !! name) ↔
  (name ≠ "ground_plane" ∧ name ∈ models.*1) ∨ is_Some (objects !! name).
Proof.
  revert objects. induction models as [|[n p] models IH]; intros objects.
  - simpl. split; [by right|]. intros [[_ ?%elem_of_nil]|?]; done.
  - rewrite fmap_cons. cbn [seeObjects fst snd]. rewrite IH, elem_of_cons.
    destruct (String.eqb n "ground_plane") eqn:E; cbn [negb].
    + apply eqb_true_iff in E. subst n. split.
      * intros [[Hne Hin]|Hs]; [left; split; [done | by right] | by right].
      * intros [[Hne [Heq|Hin]]|Hs]; [done | by left | by right].
    + apply eqb_false_iff in E. rewrite lookup_insert_is_Some. split.
      * intros [[Hne Hin]|[Heq|[Hneq Hs]]];
          [left; split; [done | by right]
          | left; subst; split; [done | by left]
          | by right].
      * intros [[Hne [Heq|Hin]]|Hs];
          [by right; left | by left |].
        destruct (decide (n = name)); [by right; left | by right; right].
Qed.

(** X7: after a sensor update the image holds exactly the models the
    logical camera reports, without the ground plane and whatever the
    image held before; a model reported twice keeps its last pose; and
    without a camera the image is empty. *)
Theorem UpdateSensors_image o s :
  match camera s with
  | Some models =>
      img (UpdateSensors o s) !! "ground_plane" = None
      ∧ (∀ name, is_Some (img (UpdateSensors o s) !! name) ↔
                 name ≠ "ground_plane" ∧ name ∈ models.*1)
      ∧ (∀ l1 l2 name p,
           models = (l1 ++ (name, p) :: l2)%list →
           name ≠ "ground_plane" → name ∉ l2.*1 →
           img (UpdateSensors o s) !! name = Some p)
  | None => img (UpdateSensors o s) = ∅
  end.
Proof.
  assert (Hi : img (UpdateSensors o s)
               = match camera s with
                 | Some models => seeObjects models ∅
                 | None => ∅
                 end).
  { unfold UpdateSensors. destruct (gps s) as [[[? ?] ?]|];
      destruct (imu s) as [[? ?]|]; reflexivity. }
  rewrite Hi. destruct (camera s) as [models|]; [|done].
  split; [by rewrite seeObjects_ground_plane|]. split.
  - intros name. rewrite seeObjects_seen, lookup_empty.
    split; [intros [?|[? ?]]; done | by left].
  - intros l1 l2 name p -> Hgp Hnot. by apply seeObjects_last.
Qed.

End Sensors.

Section Loop.

Context {Callback Quaternion : Type}.
Variable RotateVector : Quaternion → Vector3d → Vector3d.
Variable Euler : Quaternion → Vector3d.
Variable FromEuler : Q → Q → Q → Quaternion.
Variable Length : Vector3d → Q.
Variable Normalize : Vector3d → Vector3d.
Variable vectorEq : Vector3d → Vector3d → bool.
Variable equal : Q → Q → bool.
Variable tan : Q → Q.
Variable cos : Q → Q.
Variable sin : Q → Q.
Variable acos : Q → Q.
Variable TerrainLookup : Heightmap → Vector3d → Vector3d * Vector3d.

Implicit Types (r : @Robot Callback Quaternion) (m : @Model Quaternion).

Local Abbreviation AdjustPose :=
  (AdjustPose Euler FromEuler Normalize cos sin acos TerrainLookup).
Local Abbreviation Loop :=
  (Loop RotateVector Euler FromEuler Length Normalize vectorEq
     equal tan cos sin acos TerrainLookup).
Local Abbreviation iterations :=
  (iterations RotateVector Euler FromEuler Length Normalize vectorEq
     equal tan cos sin acos TerrainLookup).
Local Abbreviation surroundings := (surroundings Length vectorEq).
Local Abbreviation stranded := (stranded vectorEq).

Lemma AdjustPose_velocities r m :
  linearVel (AdjustPose r m) = linearVel m
  ∧ angularVel (AdjustPose r m) = angularVel m.
Proof.
  unfold Vehicle.AdjustPose. destruct (terrain r) as [hm|]; [|done].
  destruct (TerrainLookup _ _) as [terrainPos norm].
  destruct (type r); try done;
    by destruct (Qltb _ _).
Qed.

Lemma obey_plugin r c :
  plugin (obey r c) = plugin r ∧ observed (obey r c) = observed r.
Proof.
  destruct c; unfold obey, SetLinearVelocity, SetAngularVelocity;
    by destruct (Qle_bool _ _).
Qed.

Lemma foldl_obey_plugin cmds r :
  plugin (foldl obey r cmds) = plugin r
  ∧ observed (foldl obey r cmds) = observed r.
Proof.
  revert r. induction cmds as [|c cmds IH]; intros r; [done|].
  simpl. destruct (IH (obey r c)) as [-> ->]. apply obey_plugin.
Qed.

(** A depleted robot obeys no command. *)
Lemma foldl_obey_depleted cmds r :
  Qle_bool (capacity (plugin r)) 0 = true → foldl obey r cmds = r.
Proof.
  intros Hd. induction cmds as [|c cmds IH]; [done|].
  simpl. replace (obey r c) with r; [done|].
  destruct c; unfold obey, SetLinearVelocity, SetAngularVelocity;
    by rewrite Hd.
Qed.

Lemma foldl_obey_no_linear cmds r :
  (∀ v, CommandLinear v ∉ cmds) →
  targetLinVel (foldl obey r cmds) = targetLinVel r.
Proof.
  revert r. induction cmds as [|c cmds IH]; intros r Hno; [done|].
  simpl. rewrite IH.
  - destruct c as [v|v].
    + exfalso. apply (Hno v). left.
    + unfold obey, SetAngularVelocity. by destruct (Qle_bool _ _).
  - intros v Hin. apply (Hno v). by right.
Qed.

Lemma foldl_obey_no_angular cmds r :
  (∀ v, CommandAngular v ∉ cmds) →
  targetAngVel (foldl obey r cmds) = targetAngVel r.
Proof.
  revert r. induction cmds as [|c cmds IH]; intros r Hno; [done|].
  simpl. rewrite IH.
  - destruct c as [v|v].
    + unfold obey, SetLinearVelocity. by destruct (Qle_bool _ _).
    + exfalso. apply (Hno v). left.
  - intros v Hin. apply (Hno v). by right.
Qed.

Lemma reset_targets r :
  Qle_bool (capacity (plugin r)) 0 = false →
  (SetAngularVelocity (SetLinearVelocity r (vec 0 0 0)).2 (vec 0 0 0)).2
  = setTargetAngVel (setTargetLinVel r (vec 0 0 0)) (vec 0 0 0).
Proof.
  intros Hc. unfold SetLinearVelocity. rewrite Hc. cbn [snd].
  unfold SetAngularVelocity. cbn [plugin setTargetLinVel]. by rewrite Hc.
Qed.

(** X8: in an iteration of the loop that finds the battery depleted, the
    sensors are not read, the targets stay as they were whatever the
    controller commands, and no velocity is set on the model. *)
Theorem Loop_depleted (controller : Robot → list Command) w s r m :
  (capacity (UpdateBattery (plugin r) (surroundings r m w)) <= 0)%Q →
  observed (Loop controller w s (r, m)).1 = observed r
  ∧ targetLinVel (Loop controller w s (r, m)).1 = targetLinVel r
  ∧ targetAngVel (Loop controller w s (r, m)).1 = targetAngVel r
  ∧ linearVel (Loop controller w s (r, m)).2 = linearVel m
  ∧ angularVel (Loop controller w s (r, m)).2 = angularVel m.
Proof.
  intros Hd. unfold Vehicle.Loop.
  set (r1 := setPlugin r (UpdateBattery (plugin r) (surroundings r m w))).
  assert (Hle : Qle_bool (capacity (plugin r1)) 0 = true)
    by (by apply Qle_bool_iff).
  assert (Hlt : Qltb 0 (capacity (plugin r1)) = false)
    by (by apply Qltb_ge).
  rewrite Hlt. rewrite (foldl_obey_depleted _ r1 Hle).
  cbn [fst snd].
  destruct (AdjustPose_velocities r1
              (UpdateAngularVelocity Euler Length equal tan r1
                 (UpdateLinearVelocity RotateVector Length r1 m)))
    as [-> ->].
  unfold UpdateAngularVelocity, UpdateLinearVelocity. rewrite Hle. done.
Qed.

(** The last command of a kind is the one a charged robot keeps. *)
Lemma foldl_obey_last_linear before after v r :
  Qle_bool (capacity (plugin r)) 0 = false →
  (∀ v', CommandLinear v' ∉ after) →
  targetLinVel (foldl obey r (before ++ CommandLinear v :: after)) = v.
Proof.
  intros Hc Hno. rewrite foldl_app. cbn [foldl].
  rewrite foldl_obey_no_linear by done.
  cbn [obey]. unfold SetLinearVelocity.
  by rewrite (proj1 (foldl_obey_plugin before r)), Hc.
Qed.

Lemma foldl_obey_last_angular before after v r :
  Qle_bool (capacity (plugin r)) 0 = false →
  (∀ v', CommandAngular v' ∉ after) →
  targetAngVel (foldl obey r (before ++ CommandAngular v :: after)) = v.
Proof.
  intros Hc Hno. rewrite foldl_app. cbn [foldl].
  rewrite foldl_obey_no_angular by done.
  cbn [obey]. unfold SetAngularVelocity.
  by rewrite (proj1 (foldl_obey_plugin before r)), Hc.
Qed.

(** X9: in an iteration of the loop that finds the battery charged, the
    sensors are read and both targets are reset before the controller
    runs: a target the controller does not command is zero after the
    iteration, and a target it commands holds the last command of its
    kind, whatever commands of the other kind come after it. *)
Theorem Loop_charged (controller : Robot → list Command) w s r m :
  (0 < capacity (UpdateBattery (plugin r) (surroundings r m w)))%Q →
  observed (Loop controller w s (r, m)).1 = UpdateSensors (observed r) s
  ∧ ((∀ r0 v, CommandLinear v ∉ controller r0) →
     targetLinVel (Loop controller w s (r, m)).1 = vec 0 0 0)
  ∧ ((∀ r0 v, CommandAngular v ∉ controller r0) →
     targetAngVel (Loop controller w s (r, m)).1 = vec 0 0 0)
  ∧ (∀ v,
       (∀ r0, ∃ before after,
          controller r0 = (before ++ CommandLinear v :: after)%list
          ∧ ∀ v', CommandLinear v' ∉ after) →
       targetLinVel (Loop controller w s (r, m)).1 = v)
  ∧ (∀ v,
       (∀ r0, ∃ before after,
          controller r0 = (before ++ CommandAngular v :: after)%list
          ∧ ∀ v', CommandAngular v' ∉ after) →
       targetAngVel (Loop controller w s (r, m)).1 = v).
Proof.
  intros Hc. unfold Vehicle.Loop.
  set (r1 := setPlugin r (UpdateBattery (plugin r) (surroundings r m w))).
  assert (Hle : Qle_bool (capacity (plugin r1)) 0 = false).
  { apply not_true_iff_false. rewrite Qle_bool_iff. cbn. lra. }
  assert (Hlt : Qltb 0 (capacity (plugin r1)) = true) by (by apply Qltb_lt).
  rewrite Hlt. cbn [fst snd].
  rewrite (reset_targets (setObserved r1 (UpdateSensors (observed r1) s)))
    by exact Hle.
  set (r2 := setTargetAngVel _ _).
  assert (Hle2 : Qle_bool (capacity (plugin r2)) 0 = false) by exact Hle.
  split; [by rewrite (proj2 (foldl_obey_plugin _ r2))|].
  split; [intros Hno; by rewrite foldl_obey_no_linear|].
  split; [intros Hno; by rewrite foldl_obey_no_angular|].
  split.
  - intros v Hlast. destruct (Hlast r2) as (before & after & -> & Hno).
    by apply foldl_obey_last_linear.
  - intros v Hlast. destruct (Hlast r2) as (before & after & -> & Hno).
    by apply foldl_obey_last_angular.
Qed.

(** *** The battery stays empty *)

(** Away from a recharge, an empty battery stays empty; an update only
    touches the capacity. *)
Lemma UpdateBattery_depleted (p : State Callback) e :
  (capacity p <= 0)%Q →
  (0 <= consumption p)%Q → (0 <= consumptionFactor p)%Q →
  (0 <= maxStepSize e)%Q → recharging p e = false →
  (capacity (UpdateBattery p e) <= 0)%Q
  ∧ consumption (UpdateBattery p e) = consumption p
  ∧ consumptionFactor (UpdateBattery p e) = consumptionFactor p
  ∧ booRechargeDistance (UpdateBattery p e) = booRechargeDistance p.
Proof.
  intros Hcap Hc Hf Hs Hre. unfold UpdateBattery. rewrite Hre.
  destruct (String.eqb (modelName p) "boo"); [done|].
  cbn [capacity consumption consumptionFactor booRechargeDistance
       setCapacity].
  split; [|done].
  assert (Hstep : (0 <= maxStepSize e / 3600)%Q).
  { apply Qle_shift_div_l; lra. }
  assert (Hdrawn : (0 <= consumption p * consumptionFactor p
                         * (maxStepSize e / 3600))%Q).
  { apply Qmult_le_0_compat; [by apply Qmult_le_0_compat | done]. }
  apply std_max_lub; lra.
Qed.

(** One iteration that finds the battery depleted. *)
Lemma Loop_keeps (controller : Robot → list Command) w s r m :
  (capacity (UpdateBattery (plugin r) (surroundings r m w)) <= 0)%Q →
  plugin (Loop controller w s (r, m)).1
  = UpdateBattery (plugin r) (surroundings r m w)
  ∧ observed (Loop controller w s (r, m)).1 = observed r
  ∧ targetLinVel (Loop controller w s (r, m)).1 = targetLinVel r
  ∧ targetAngVel (Loop controller w s (r, m)).1 = targetAngVel r
  ∧ linearVel (Loop controller w s (r, m)).2 = linearVel m
  ∧ angularVel (Loop controller w s (r, m)).2 = angularVel m.
Proof.
  intros Hd. unfold Vehicle.Loop.
  set (r1 := setPlugin r (UpdateBattery (plugin r) (surroundings r m w))).
  assert (Hle : Qle_bool (capacity (plugin r1)) 0 = true)
    by (by apply Qle_bool_iff).
  assert (Hlt : Qltb 0 (capacity (plugin r1)) = false)
    by (by apply Qltb_ge).
  rewrite Hlt. rewrite (foldl_obey_depleted _ r1 Hle).
  cbn [fst snd].
  destruct (AdjustPose_velocities r1
              (UpdateAngularVelocity Euler Length equal tan r1
                 (UpdateLinearVelocity RotateVector Length r1 m)))
    as [-> ->].
  unfold UpdateAngularVelocity, UpdateLinearVelocity. rewrite Hle. done.
Qed.

Lemma stranded_recharging r m ws inputs :
  stranded r (ws :: inputs) →
  recharging (plugin r) (surroundings r m ws.1) = false.
Proof.
  unfold recharging, Vehicle.surroundings.
  cbn [linearIsZero angularIsZero booDistance].
  intros [Hl|[Ha|[Hd Hno]]].
  - rewrite Hl. by rewrite andb_false_r.
  - rewrite Ha. by rewrite andb_false_r.
  - apply Forall_cons in Hno as [Hno _]. rewrite Hno.
    unfold distToBOO. cbn [fmap option_fmap option_map booDistance].
    by rewrite (proj2 (Qltb_ge _ _) Hd).
Qed.

(** X12: a robot whose battery is empty and that cannot recharge (the
    velocity it last observed is not zero, or the world has no base)
    stays as it is for all the iterations of the loop to come, whatever
    the controller commands and the sensors would give: the battery
    stays empty, the observations and the targets stay as they were,
    and the plugin sets no velocity on the model again. *)
Theorem iterations_depleted (controller : Robot → list Command)
    (inputs : list (Simulator * Readings)) r m :
  (capacity (plugin r) <= 0)%Q →
  (0 <= consumption (plugin r))%Q → (0 <= consumptionFactor (plugin r))%Q →
  Forall (λ ws, (0 <= stepSize ws.1)%Q) inputs →
  stranded r inputs →
  (capacity (plugin (iterations controller inputs (r, m)).1) <= 0)%Q
  ∧ observed (iterations controller inputs (r, m)).1 = observed r
  ∧ targetLinVel (iterations controller inputs (r, m)).1 = targetLinVel r
  ∧ targetAngVel (iterations controller inputs (r, m)).1 = targetAngVel r
  ∧ linearVel (iterations controller inputs (r, m)).2 = linearVel m
  ∧ angularVel (iterations controller inputs (r, m)).2 = angularVel m.
Proof.
  revert r m. induction inputs as [|ws inputs IH];
    intros r m Hcap Hc Hf Hsteps Hstranded; [done|].
  apply Forall_cons in Hsteps as [Hstep Hsteps].
  pose proof (stranded_recharging r m ws inputs Hstranded) as Hre.
  destruct (UpdateBattery_depleted (plugin r) (surroundings r m ws.1)
              Hcap Hc Hf Hstep Hre) as (Hcap' & Hc' & Hf' & Hd').
  destruct (Loop_keeps controller ws.1 ws.2 r m Hcap')
    as (Hp & Ho & Hl & Ha & Hlv & Hav).
  unfold Vehicle.iterations. cbn [foldl].
  destruct (Loop controller ws.1 ws.2 (r, m)) as [r' m'] eqn:Hloop.
  cbn [fst snd] in *.
  rewrite <- Ho, <- Hl, <- Ha, <- Hlv, <- Hav.
  apply IH.
  - by rewrite Hp.
  - by rewrite Hp, Hc'.
  - by rewrite Hp, Hf'.
  - done.
  - unfold Vehicle.stranded in *. rewrite Ho, Hp, Hd'.
    destruct Hstranded as [?|[?|[? Hno]]]; [by left | by right; left|].
    right; right. split; [done|]. by apply Forall_cons in Hno as [_ ?].
Qed.

(** *** Terrain following *)

(** The constrained position is within the terrain boundaries. *)
Lemma constrained_bounds (hm : Heightmap) (pose : @Pose3d Quaternion) :
  (0 <= vX (terrainSize hm))%Q → (0 <= vY (terrainSize hm))%Q →
  (- vX (terrainSize hm) * (1 # 2) <= vX (Pos (constrained hm pose)))%Q
  ∧ (vX (Pos (constrained hm pose)) <= vX (terrainSize hm) * (1 # 2))%Q
  ∧ (- vY (terrainSize hm) * (1 # 2) <= vY (Pos (constrained hm pose)))%Q
  ∧ (vY (Pos (constrained hm pose)) <= vY (terrainSize hm) * (1 # 2))%Q
  ∧ vZ (Pos (constrained hm pose)) = vZ (Pos pose).
Proof.
  intros Hx Hy. unfold constrained. cbn [Pos setPos setX setY vX vY vZ].
  destruct (clamp_bounds (vX (Pos pose)) (- vX (terrainSize hm) * (1 # 2))
              (vX (terrainSize hm) * (1 # 2))) as [? ?]; [lra|].
  destruct (clamp_bounds (vY (Pos pose)) (- vY (terrainSize hm) * (1 # 2))
              (vY (terrainSize hm) * (1 # 2))) as [? ?]; [lra|].
  done.
Qed.

(** X10: on a terrain, whatever [TerrainLookup] returns, [AdjustPose]
    puts a ground vehicle within the boundaries of the terrain, at the
    height the lookup gives under that place plus half the height of
    the model, with the yaw it had; the velocities of the model are
    not touched. *)
Theorem AdjustPose_ground r m (hm : Heightmap) :
  terrain r = Some hm → type r = GROUND →
  (0 <= vX (terrainSize hm))%Q → (0 <= vY (terrainSize hm))%Q →
  (- vX (terrainSize hm) * (1 # 2)
   <= vX (Pos (worldPose (AdjustPose r m))))%Q
  ∧ (vX (Pos (worldPose (AdjustPose r m)))
     <= vX (terrainSize hm) * (1 # 2))%Q
  ∧ (- vY (terrainSize hm) * (1 # 2)
     <= vY (Pos (worldPose (AdjustPose r m))))%Q
  ∧ (vY (Pos (worldPose (AdjustPose r m)))
     <= vY (terrainSize hm) * (1 # 2))%Q
  ∧ vZ (Pos (worldPose (AdjustPose r m)))
    = (vZ (TerrainLookup hm (Pos (constrained hm (worldPose m)))).1
       + modelHeight2 r)%Q
  ∧ (∃ roll pitch,
       Rot (worldPose (AdjustPose r m))
       = FromEuler roll pitch (vZ (Euler (Rot (worldPose m)))))
  ∧ linearVel (AdjustPose r m) = linearVel m
  ∧ angularVel (AdjustPose r m) = angularVel m.
Proof.
  intros Hterrain Htype Hsx Hsy.
  destruct (constrained_bounds hm (worldPose m) Hsx Hsy)
    as (Hx1 & Hx2 & Hy1 & Hy2 & _).
  destruct (AdjustPose_velocities r m) as [Hlv Hav].
  rewrite Hlv, Hav. clear Hlv Hav.
  unfold Vehicle.AdjustPose. rewrite Hterrain, Htype.
  destruct (TerrainLookup hm (Pos (constrained hm (worldPose m))))
    as [terrainPos norm].
  cbn [fst worldPose SetWorldPose Pos Rot setPos setRot setZ vX vY vZ] in *.
  do 5 (split; [done|]). split; [|done].
  by eexists _, _.
Qed.

(** X11: on a terrain, whatever [TerrainLookup] returns, [AdjustPose]
    never lowers a rotorcraft or a fixed wing, never turns it, and
    leaves it at least half the height of the model above the height
    the lookup gives under its constrained position; it changes the
    model only when the vehicle is below that height, and only then
    brings it within the boundaries of the terrain. *)
Theorem AdjustPose_flying r m (hm : Heightmap) :
  terrain r = Some hm → type r ≠ GROUND →
  (0 <= vX (terrainSize hm))%Q → (0 <= vY (terrainSize hm))%Q →
  (vZ (Pos (worldPose m)) <= vZ (Pos (worldPose (AdjustPose r m))))%Q
  ∧ (vZ (TerrainLookup hm (Pos (constrained hm (worldPose m)))).1
     + modelHeight2 r <= vZ (Pos (worldPose (AdjustPose r m))))%Q
  ∧ Rot (worldPose (AdjustPose r m)) = Rot (worldPose m)
  ∧ (AdjustPose r m = m
     ∨ ((vZ (Pos (worldPose m))
         < vZ (TerrainLookup hm (Pos (constrained hm (worldPose m)))).1
           + modelHeight2 r)%Q
        ∧ vZ (Pos (worldPose (AdjustPose r m)))
          = (vZ (TerrainLookup hm (Pos (constrained hm (worldPose m)))).1
             + modelHeight2 r)%Q
        ∧ (- vX (terrainSize hm) * (1 # 2)
           <= vX (Pos (worldPose (AdjustPose r m))))%Q
        ∧ (vX (Pos (worldPose (AdjustPose r m)))
           <= vX (terrainSize hm) * (1 # 2))%Q
        ∧ (- vY (terrainSize hm) * (1 # 2)
           <= vY (Pos (worldPose (AdjustPose r m))))%Q
        ∧ (vY (Pos (worldPose (AdjustPose r m)))
           <= vY (terrainSize hm) * (1 # 2))%Q)).
Proof.
  intros Hterrain Htype Hsx Hsy.
  destruct (constrained_bounds hm (worldPose m) Hsx Hsy)
    as (Hx1 & Hx2 & Hy1 & Hy2 & Hz).
  unfold Vehicle.AdjustPose. rewrite Hterrain.
  destruct (TerrainLookup hm (Pos (constrained hm (worldPose m))))
    as [terrainPos norm].
  cbn [fst] in *.
  destruct (type r); [done| |];
    (destruct (Qltb _ _) eqn:E;
     [apply Qltb_lt in E | apply Qltb_ge in E];
     rewrite Hz in E;
     cbn [worldPose SetWorldPose Pos Rot setPos setZ vX vY vZ];
     [ split; [lra|]; split; [lra|]; split; [done|];
       right; repeat split; first [done | lra]
     | split; [lra|]; split; [lra|]; split; [done|]; by left ]).
Qed.

End Loop.

End VehicleProofs.

(** ** The battery over time *)

Module BatteryProofs.
Import Vector RobotPlugin Battery.

Lemma std_max_spec a b :
  ((a < b)%Q ∧ std_max a b = b) ∨ ((b <= a)%Q ∧ std_max a b = a).
Proof.
  unfold std_max. destruct (Qltb a b) eqn:E;
    [left; by apply Qltb_lt in E | right; by apply Qltb_ge in E].
Qed.

Lemma std_min_spec a b :
  ((b < a)%Q ∧ std_min a b = b) ∨ ((a <= b)%Q ∧ std_min a b = a).
Proof.
  unfold std_min. destruct (Qltb b a) eqn:E;
    [left; by apply Qltb_lt in E | right; by apply Qltb_ge in E].
Qed.

Section Battery.

Context {Callback : Type}.

Implicit Types (r : State Callback) (e : Surroundings).

Lemma UpdateBattery_fields r e :
  modelName (UpdateBattery r e) = modelName r
  ∧ consumption (UpdateBattery r e) = consumption r
  ∧ consumptionFactor (UpdateBattery r e) = consumptionFactor r
  ∧ startCapacity (UpdateBattery r e) = startCapacity r
  ∧ booRechargeDistance (UpdateBattery r e) = booRechargeDistance r.
Proof.
  unfold UpdateBattery.
  by destruct (String.eqb (modelName r) "boo"), (recharging r e).
Qed.

(** X14: a robot whose SDF has no battery element keeps the battery of
    the constructor, which no update drains. *)
Theorem constructed_battery_never_drains (es : list Surroundings) r :
  (capacity (foldl UpdateBattery (LoadBattery (constructed r) None) es)
   == 1)%Q.
Proof.
  cbn [LoadBattery].
  assert (Hgen : ∀ r0 : State Callback,
            (capacity r0 == 1)%Q → startCapacity r0 = 1%Q →
            consumption r0 = 0%Q → consumptionFactor r0 = 0%Q →
            (capacity (foldl UpdateBattery r0 es) == 1)%Q).
  { induction es as [|e es IH]; intros r0 Hcap Hs Hc Hf; [done|].
    destruct (UpdateBattery_fields r0 e) as (_ & Hc' & Hf' & Hs' & _).
    simpl. apply IH; [|congruence..].
    unfold UpdateBattery.
    destruct (String.eqb (modelName r0) "boo"); [done|].
    destruct (recharging r0 e); cbn [capacity setCapacity];
      rewrite Hc, Hf, ?Hs.
    - destruct (std_min_spec (capacity r0 + 0 * (0 * 4) * (maxStepSize e / 3600))
                  1) as [[? ->]|[? ->]]; lra.
    - destruct (std_max_spec 0 (capacity r0 - 0 * 0 * (maxStepSize e / 3600)))
        as [[? ->]|[? ->]]; lra. }
  by apply Hgen.
Qed.

End Battery.

End BatteryProofs.

(** ** The router, continued *)

Module RouterProofs.
Import RobotPlugin Topic.

Lemma pretty_N_char_not_slash x : pretty_N_char x ≠ "/"%char.
Proof. unfold pretty_N_char. by repeat case_match. Qed.

Lemma pretty_N_go_slashFree x s : slashFree s → slashFree (pretty_N_go x s).
Proof.
  revert s. induction (N.lt_wf_0 x) as [x _ IH]; intros s Hs.
  destruct (decide (x = 0)%N) as [->|Hx]; [by rewrite pretty_N_go_0|].
  rewrite pretty_N_go_step by lia. apply IH.
  - apply N.div_lt; lia.
  - split; [apply pretty_N_char_not_slash | done].
Qed.

Lemma pretty_N_slashFree (x : N) : slashFree (pretty x).
Proof.
  unfold pretty, pretty_N. destruct (decide (x = 0)%N).
  - split; [discriminate | done].
  - by apply pretty_N_go_slashFree.
Qed.

Lemma slash_not_slashFree a d : ¬ slashFree (a +:+ String "/" d).
Proof. induction a as [|c a IH]; simpl; intros [? ?]; [done | auto]. Qed.

(** A string is cut in one way only at its last slash. *)
Lemma cut_at_last_slash a1 a2 d1 d2 :
  slashFree d1 → slashFree d2 →
  a1 +:+ String "/" d1 = a2 +:+ String "/" d2 → a1 = a2 ∧ d1 = d2.
Proof.
  intros H1 H2. revert a2.
  induction a1 as [|c a1 IH]; intros [|c' a2]; simpl; intros Heq.
  - by injection Heq.
  - injection Heq as <- ->. by apply slash_not_slashFree in H1.
  - injection Heq as -> <-. by apply slash_not_slashFree in H2.
  - injection Heq as -> Heq. destruct (IH a2 Heq) as [-> ->]. done.
Qed.

Lemma topicOf_eq msg :
  topicOf msg
  = "/swarm/" +:+ (dst_address msg +:+ String "/" (pretty (dst_port msg))).
Proof. reflexivity. Qed.

Section Topics.

Context {Callback : Type}.

Implicit Types (r : State Callback) (msg : Datagram).

(** X16: two datagrams are looked up under the same key only when they
    have the same destination address and port, so a callback bound for
    one destination alone never runs for a datagram sent to another:
    that datagram is reported as not found. *)
Theorem topicOf_inj msg1 msg2 :
  (topicOf msg1 = topicOf msg2 ↔
   dst_address msg1 = dst_address msg2 ∧ dst_port msg1 = dst_port msg2)
  ∧ (∀ r (cb : Callback),
       callbacks r = {[ topicOf msg1 := cb ]} →
       (dst_address msg2 ≠ dst_address msg1
        ∨ dst_port msg2 ≠ dst_port msg1) →
       OnMsgReceived r msg2 = [GzErr (notFoundLine r (topicOf msg2))]).
Proof.
  assert (Hinj : topicOf msg1 = topicOf msg2 →
                 dst_address msg1 = dst_address msg2
                 ∧ dst_port msg1 = dst_port msg2).
  { rewrite !topicOf_eq. intros Heq%(inj (String.app "/swarm/")).
    apply cut_at_last_slash in Heq as [? Hport];
      [|apply pretty_N_slashFree..].
    split; [done|]. by apply (inj pretty). }
  split.
  - split; [exact Hinj|]. intros [Ha Hp]. unfold topicOf. by rewrite Ha, Hp.
  - intros r cb Hcb Hne. unfold OnMsgReceived. rewrite Hcb.
    rewrite lookup_singleton_ne; [done|].
    intros Heq. destruct (Hinj Heq) as [Ha Hp].
    destruct Hne as [Hne|Hne]; congruence.
Qed.

(** X17: a datagram as [SendTo] builds it has no recipients yet, and
    runs no callback of any robot it is handed to before the broker has
    filled them in. *)
Theorem outgoing_runs_no_callback r r' (payload dst : string) (port : N)
    (cb : Callback) src dst' port' payload' :
  UserCallback cb src dst' port' payload'
  ∉ OnMsgReceived r' (outgoing r payload dst port).
Proof.
  apply RobotPluginProofs.OnMsgReceived_not_recipient.
  cbn [recipients outgoing]. apply not_elem_of_nil.
Qed.

End Topics.

End RouterProofs.

(** ** The example team controller *)

Module TeamControllerProofs.
Import RobotPlugin TeamController.

Section Controller.

Context {Callback Transport : Type}.
Variable Publish : string → Datagram → Transport → bool * Transport.
Variable kMtu : N.
Variable kDefaultPort : N.
Variable kBroadcast : string.
Variable kMulticast : string.

Implicit Types (r : State Callback) (c : Controller) (t : Transport)
  (log : list Datagram).

Local Abbreviation Update :=
  (Update (recording Publish) kMtu kDefaultPort kBroadcast kMulticast).
Local Abbreviation updates :=
  (updates (recording Publish) kMtu kDefaultPort kBroadcast kMulticast).
Local Abbreviation fromController :=
  (fromController kDefaultPort kBroadcast kMulticast).

(** What one [SendTo] adds to the record: nothing, or the datagram it
    built. *)
Lemma SendTo_recorded r t log payload dst port :
  ∃ new,
    (SendTo (recording Publish) kMtu r (t, log) payload dst port).1.2.2
    = (log ++ new)%list
    ∧ (new = [] ∨ new = [outgoing r payload dst port]).
Proof.
  unfold SendTo. destruct (kMtu <? payloadSize payload)%N.
  - exists []. split; [by rewrite app_nil_r | by left].
  - unfold recording. cbn [fst snd].
    exists [outgoing r payload dst port].
    split; [|by right]. by destruct (negb _).
Qed.

Lemma fromController_outgoing r payload dst :
  dst = peer (Host r) ∨ dst = kBroadcast ∨ dst = kMulticast →
  fromController r (outgoing r payload dst kDefaultPort).
Proof. intros Hdst. by repeat split. Qed.

(** One update either finds the quota reached and does nothing, or
    counts one more update and records at most three datagrams. *)
Lemma Update_recorded c r t log :
  ∃ new,
    (Update c r (t, log)).1.2.2 = (log ++ new)%list
    ∧ (length new <= 3)%nat
    ∧ Forall (fromController r) new
    ∧ numMessageToSend (Update c r (t, log)).1.1 = numMessageToSend c
    ∧ (((msgsSent c < numMessageToSend c)%Z
        ∧ msgsSent (Update c r (t, log)).1.1 = (msgsSent c + 1)%Z)
       ∨ ((numMessageToSend c <= msgsSent c)%Z
          ∧ Update c r (t, log) = (c, (t, log), []))).
Proof.
  unfold TeamController.Update.
  destruct (Z.ltb_spec (msgsSent c) (numMessageToSend c)) as [Hlt|Hge];
    [|exists []; rewrite app_nil_r; repeat split; [simpl; lia | done | by right]].
  destruct (SendTo_recorded r t log "Unicast data" (peer (Host r)) kDefaultPort)
    as (new1 & Hlog1 & Hnew1).
  destruct (SendTo (recording Publish) kMtu r (t, log) "Unicast data"
              (peer (Host r)) kDefaultPort) as [[ok1 [t1 sent1]] log1].
  cbn [fst snd] in Hlog1. subst sent1.
  assert (H1 : Forall (fromController r) new1 ∧ (length new1 <= 1)%nat).
  { destruct Hnew1 as [->| ->]; (split; [|simpl; lia]); [done|].
    constructor; [|done]. apply fromController_outgoing. by left. }
  destruct H1 as [Hf1 Hl1].
  destruct ok1; cbn [negb];
    [|exists new1; cbn; repeat split; [lia | done | left; done]].
  destruct (SendTo_recorded r t1 (log ++ new1) "Broadcast data" kBroadcast
              kDefaultPort) as (new2 & Hlog2 & Hnew2).
  destruct (SendTo (recording Publish) kMtu r (t1, (log ++ new1)%list)
              "Broadcast data" kBroadcast kDefaultPort)
    as [[ok2 [t2 sent2]] log2].
  cbn [fst snd] in Hlog2. subst sent2.
  assert (H2 : Forall (fromController r) new2 ∧ (length new2 <= 1)%nat).
  { destruct Hnew2 as [->| ->]; (split; [|simpl; lia]); [done|].
    constructor; [|done]. apply fromController_outgoing. right. by left. }
  destruct H2 as [Hf2 Hl2].
  destruct ok2; cbn [negb];
    [|exists (new1 ++ new2)%list; cbn; rewrite <- app_assoc, length_app;
      repeat split; [lia | by apply Forall_app | left; done]].
  destruct (SendTo_recorded r t2 ((log ++ new1) ++ new2) "Multicast data"
              kMulticast kDefaultPort) as (new3 & Hlog3 & Hnew3).
  destruct (SendTo (recording Publish) kMtu r
              (t2, ((log ++ new1) ++ new2)%list)
              "Multicast data" kMulticast kDefaultPort)
    as [[ok3 [t3 sent3]] log3].
  cbn [fst snd] in Hlog3. subst sent3.
  assert (H3 : Forall (fromController r) new3 ∧ (length new3 <= 1)%nat).
  { destruct Hnew3 as [->| ->]; (split; [|simpl; lia]); [done|].
    constructor; [|done]. apply fromController_outgoing. right. by right. }
  destruct H3 as [Hf3 Hl3].
  exists (new1 ++ new2 ++ new3)%list.
  destruct ok3; cbn; rewrite <- !app_assoc, !length_app;
    (repeat split; [lia | by repeat apply Forall_app_2 | left; done]).
Qed.


End Controller.

End TeamControllerProofs.

(** ** Concrete runs of the vehicles *)

Module Runs.
Import Vector Terrain RobotPlugin Vehicle Battery TeamController Fleet.
Import Examples.

Ltac evaluate :=
  first [ reflexivity
        | vm_compute; reflexivity
        | vm_compute; discriminate
        | vm_compute; split; discriminate ].

Lemma vertices_triangle_witness :
  (vertices apart (vec (7 # 2) (5 # 4) 0)).1.1 = vec 4 1 0.
Proof.
  refine (proj1 (TerrainProofs.vertices_triangle apart
                   (vec (7 # 2) (5 # 4) 0) _ _)); evaluate.
Defined.

Lemma UpdateLinearVelocity_limit_witness :
  veq (linearVel (UpdateLinearVelocity noRotation euclidean
                    (vehicle GROUND 1) (parked 0 0 0)))
    (vec 2 0 0)
  ∧ veq (linearVel (UpdateLinearVelocity noRotation euclidean
                      (vehicle ROTOR 1) (parked 0 0 0)))
      (vec 3 4 0).
Proof.
  split.
  - destruct (VehicleProofs.UpdateLinearVelocity_limit noRotation euclidean
                (vehicle GROUND 1) (parked 0 0 0)) as (_ & Hover & _);
      [evaluate | evaluate |].
    rewrite Hover by evaluate. vm_compute. repeat split; reflexivity.
  - destruct (VehicleProofs.UpdateLinearVelocity_limit noRotation euclidean
                (vehicle ROTOR 1) (parked 0 0 0)) as (Hwithin & _);
      [evaluate | evaluate |].
    apply Hwithin. evaluate.
Defined.

Lemma UpdateAngularVelocity_limits_witness :
  angularVel (UpdateAngularVelocity noEuler euclidean exactly flat
                (vehicle GROUND 1) (parked 0 0 0))
  = vec 1 0 0
  ∧ veq (angularVel (UpdateAngularVelocity noEuler euclidean exactly flat
                       (vehicle ROTOR 1) (parked 0 0 0)))
      (vec (6 # 5) 0 (8 # 5)).
Proof.
  split.
  - pose proof (VehicleProofs.UpdateAngularVelocity_limits noEuler euclidean
                  exactly flat (vehicle GROUND 1) (parked 0 0 0))
      as Hground.
    destruct Hground as (Hyaw & _); [evaluate..|].
    exact Hyaw.
  - pose proof (VehicleProofs.UpdateAngularVelocity_limits noEuler euclidean
                  exactly flat (vehicle ROTOR 1) (parked 0 0 0))
      as Hrotor.
    destruct Hrotor as (_ & Hover); [evaluate..|].
    rewrite Hover by evaluate. vm_compute. repeat split; reflexivity.
Defined.

Lemma UpdateSensors_bearing_witness :
  (0 <= observedBearing (UpdateSensors blind turned))%Q
  ∧ (observedBearing (UpdateSensors blind turned) <= TwoPi)%Q.
Proof.
  apply (VehicleProofs.UpdateSensors_bearing blind turned); evaluate.
Defined.

Lemma Loop_depleted_witness :
  linearVel (Loop noRotation noEuler fromNoEuler euclidean keep
               sameVector exactly flat flat flat flat level forward
               (noBase 1) still (vehicle GROUND 0, parked 0 0 0)).2
  = linearVel (parked 0 0 0).
Proof.
  apply (VehicleProofs.Loop_depleted noRotation noEuler fromNoEuler euclidean
           keep sameVector exactly flat flat flat flat level forward
           (noBase 1) still (vehicle GROUND 0) (parked 0 0 0)).
  evaluate.
Defined.

Lemma Loop_charged_witness :
  targetLinVel
    (Loop noRotation noEuler fromNoEuler euclidean keep
       sameVector exactly flat flat flat flat level zigzag (noBase 1) still
       (vehicle GROUND 1, parked 0 0 0)).1
  = vec 2 0 0.
Proof.
  destruct (VehicleProofs.Loop_charged noRotation noEuler fromNoEuler
              euclidean keep sameVector exactly flat flat flat flat level
              zigzag (noBase 1) still (vehicle GROUND 1) (parked 0 0 0))
    as (_ & _ & _ & Hlast & _); [evaluate|].
  apply (Hlast (vec 2 0 0)). intros r0.
  exists [CommandLinear (vec 1 0 0)], [CommandAngular (vec 0 0 1)].
  split; [reflexivity|].
  intros v' Hin%list_elem_of_singleton. discriminate.
Defined.

Lemma AdjustPose_ground_witness :
  (vX (Pos (worldPose
              (AdjustPose noEuler fromNoEuler keep flat flat flat level
                 (vehicle GROUND 1) (parked 7 0 3)))) <= 5)%Q
  ∧ vZ (Pos (worldPose
               (AdjustPose noEuler fromNoEuler keep flat flat flat level
                  (vehicle GROUND 1) (parked 7 0 3))))
    = (2 + (1 # 2))%Q.
Proof.
  destruct (VehicleProofs.AdjustPose_ground noEuler fromNoEuler keep
              flat flat flat level (vehicle GROUND 1) (parked 7 0 3)
              plateau)
    as (_ & Hx & _ & _ & Hz & _); [evaluate..|].
  split; [|exact Hz].
  assert (E : (vX (terrainSize plateau) * (1 # 2) == 5)%Q) by reflexivity.
  by rewrite <- E.
Defined.

Lemma AdjustPose_flying_witness :
  (vZ (Pos (worldPose (parked 7 0 1)))
   <= vZ (Pos (worldPose
                 (AdjustPose noEuler fromNoEuler keep flat flat flat level
                    (vehicle ROTOR 1) (parked 7 0 1)))))%Q
  ∧ AdjustPose noEuler fromNoEuler keep flat flat flat level
      (vehicle ROTOR 1) (parked 7 0 3)
    = parked 7 0 3.
Proof.
  split.
  - refine (proj1 (VehicleProofs.AdjustPose_flying noEuler fromNoEuler keep
                     flat flat flat level (vehicle ROTOR 1) (parked 7 0 1)
                     plateau _ _ _ _));
      first [discriminate | evaluate].
  - destruct (VehicleProofs.AdjustPose_flying noEuler fromNoEuler keep
                flat flat flat level (vehicle ROTOR 1) (parked 7 0 3)
                plateau) as (_ & _ & _ & [Hsame|[Hbelow _]]);
      [evaluate | discriminate | evaluate | evaluate | exact Hsame |].
    exfalso. revert Hbelow. vm_compute. discriminate.
Defined.

Lemma iterations_depleted_witness :
  targetLinVel
    (iterations noRotation noEuler fromNoEuler euclidean keep sameVector
       exactly flat flat flat flat level forward
       [(noBase 1, still); (noBase 1, still)]
       (vehicle GROUND 0, parked 0 0 0)).1
  = vec 3 4 0.
Proof.
  destruct (VehicleProofs.iterations_depleted noRotation noEuler fromNoEuler
              euclidean keep sameVector exactly flat flat flat flat level
              forward [(noBase 1, still); (noBase 1, still)]
              (vehicle GROUND 0) (parked 0 0 0))
    as (_ & _ & Hlin & _); [evaluate | evaluate | evaluate | | |exact Hlin].
  - repeat constructor; evaluate.
  - right; right. split; [evaluate|]. repeat constructor.
Defined.

End Runs.
